(** * wicked-stake: the staking page (src/pages/index.tsx)

    A shallow embedding of the page's logic: the error-to-message mapping,
    the connector buttons and the activation marker of [App], the checked
    sets, the Stake button and the Fetch handler of [Interact].

    Conventions.
    - A JavaScript value that may be [undefined] or [null] is an [option];
      [!!x] on such a value is [is_Some'] (objects are truthy).
    - Token ids and balances come from the chain as unsigned integers and
      are modelled in [N]; [Number] is the conversion the page applies.
    - Calls into the wallet and the contracts are recorded as events.
    - How many arguments [apply] takes is left to the JavaScript engine:
      the Fetch handler is modelled over an [Engine] that gives the
      bound. *)

From Stdlib Require Import NArith Lia.
From stdpp Require Import base decidable option list strings numbers.

Set Default Proof Using "Type".
Open Scope string_scope.
Open Scope list_scope.

(** Truthiness of a nullable object reference. *)
Definition is_Some' {A} (o : option A) : bool :=
  match o with Some _ => true | None => false end.

(** Truthiness of a nullable string: the empty string is falsy too. *)
Definition truthy_string (o : option string) : bool :=
  match o with
  | Some s => negb (String.eqb s "")
  | None => false
  end.

(** ** Error messages *)

Module Errors.

(** The error classes the page tests with [instanceof].  The five library
    classes each extend [Error] directly, so an error object is an instance
    of at most one of them; [OtherError] is any other [Error]. *)
Inductive Error : Type :=
| NoEthereumProviderError
| UnsupportedChainIdError
| UserRejectedRequestErrorInjected
| UserRejectedRequestErrorWalletConnect
| UserRejectedRequestErrorFrame
| OtherError (message : string).

(** The classes, as the right operand of [instanceof]. *)
Inductive ErrorClass : Type :=
| CNoEthereumProvider
| CUnsupportedChainId
| CUserRejectedInjected
| CUserRejectedWalletConnect
| CUserRejectedFrame.

Definition instanceof (e : Error) (c : ErrorClass) : bool :=
  match e, c with
  | NoEthereumProviderError, CNoEthereumProvider => true
  | UnsupportedChainIdError, CUnsupportedChainId => true
  | UserRejectedRequestErrorInjected, CUserRejectedInjected => true
  | UserRejectedRequestErrorWalletConnect, CUserRejectedWalletConnect => true
  | UserRejectedRequestErrorFrame, CUserRejectedFrame => true
  | _, _ => false
  end.

Definition msgNoProvider : string :=
  "No Ethereum browser extension detected, install MetaMask on desktop or visit from a dApp browser on mobile.".
Definition msgUnsupported : string :=
  "You're connected to an unsupported network.".
Definition msgAuthorize : string :=
  "Please authorize this website to access your Ethereum account.".
Definition msgUnknown : string :=
  "An unknown error occurred. Check the console for more details.".

(** [getErrorMessage]: the message, and what the call writes with
    [console.error] (only the last branch logs). *)
Definition getErrorMessage_run (error : Error) : string * list Error :=
  if instanceof error CNoEthereumProvider then (msgNoProvider, [])
  else if instanceof error CUnsupportedChainId then (msgUnsupported, [])
  else if instanceof error CUserRejectedInjected
          || instanceof error CUserRejectedWalletConnect
          || instanceof error CUserRejectedFrame
       then (msgAuthorize, [])
  else (msgUnknown, [error]).

Definition getErrorMessage (error : Error) : string :=
  fst (getErrorMessage_run error).

(** A user-rejection error, from any of the three connectors. *)
Definition isUserRejection (e : Error) : bool :=
  instanceof e CUserRejectedInjected
  || instanceof e CUserRejectedWalletConnect
  || instanceof e CUserRejectedFrame.

Definition fixedMessages : list string :=
  [msgNoProvider; msgUnsupported; msgAuthorize; msgUnknown].

End Errors.

(** ** Connector buttons and the activation marker of [App] *)

Module Wallet.

(** The keys of [connectorsByName], in the order of the object literal
    (the order [Object.keys] lists them in). *)
Inductive ConnectorNames : Type :=
| Injected | Network | WalletConnect | WalletLink | Ledger | Trezor
| Lattice | Frame | Authereum | Fortmatic | Magic | Portis | Torus.

Definition connectorLabel (name : ConnectorNames) : string :=
  match name with
  | Injected => "Metamask"
  | Network => "Network"
  | WalletConnect => "WalletConnect"
  | WalletLink => "WalletLink"
  | Ledger => "Ledger"
  | Trezor => "Trezor"
  | Lattice => "Lattice"
  | Frame => "Frame"
  | Authereum => "Authereum"
  | Fortmatic => "Fortmatic"
  | Magic => "Magic"
  | Portis => "Portis"
  | Torus => "Torus"
  end.

Definition registryKeys : list ConnectorNames :=
  [Injected; Network; WalletConnect; WalletLink; Ledger; Trezor;
   Lattice; Frame; Authereum; Fortmatic; Magic; Portis; Torus].

(** What [getLibrary] builds: a provider polling every 12 seconds. *)
Record Web3Provider : Type := { pollingInterval : N }.

Definition getLibrary : Web3Provider := {| pollingInterval := 12000 |}.

(** The mark [Header] shows: green, red or orange. *)
Inductive StatusMark : Type := Green | Red | Orange.

(** What a session button calls on the connector. *)
Inductive SessionCall : Type :=
| ChangeChainId (target : N)
| ChangeNetwork (target : N)
| Close.

Record SessionButton : Type := {
  sessionLabel : string;
  sessionCall : SessionCall
}.

(** Truthiness of [chainId]: a number, [0] is falsy. *)
Definition truthy_chainId (chainId : option N) : bool :=
  match chainId with
  | Some n => negb (n =? 0)%N
  | None => false
  end.

(** [chainId === 1] *)
Definition is_chain (n : N) (chainId : option N) : bool :=
  match chainId with
  | Some m => (m =? n)%N
  | None => false
  end.

Section Connectors.
(** The connector objects are made in ../connectors; here they are
    references compared with [===], and the registry is the table
    [connectorsByName]. *)
Context {Connector : Type} `{EqDecision Connector}.
Variable connectorsByName : ConnectorNames -> Connector.

(** The fields of the web3-react context that [App] reads. *)
Record Web3Context : Type := {
  connector : option Connector;
  library : option Web3Provider;
  chainId : option N;
  account : option string;
  active : bool;
  error : option Errors.Error
}.

(** [a === b] where [a] is an object and [b] may be undefined. *)
Definition same_ref (a : Connector) (b : option Connector) : bool :=
  bool_decide (b = Some a).

Record ConnectorButton : Type := {
  key : ConnectorNames;
  disabled : bool;
  borderColor : string;
  cursor : string;
  spinner : bool;
  checkmark : bool
}.

(** The body of the [map] callback over the registry keys. *)
Definition connectorButton (triedEager : bool)
    (activatingConnector : option Connector) (ctx : Web3Context)
    (name : ConnectorNames) : ConnectorButton :=
  let currentConnector := connectorsByName name in
  let activating := same_ref currentConnector activatingConnector in
  let connected := same_ref currentConnector (connector ctx) in
  let disabled :=
    negb triedEager || is_Some' activatingConnector || connected
    || is_Some' (error ctx) in
  {| key := name;
     disabled := disabled;
     borderColor :=
       if activating then "orange" else if connected then "green" else "unset";
     cursor := if disabled then "unset" else "pointer";
     spinner := activating;
     checkmark := connected |}.

Definition connectorButtons (triedEager : bool)
    (activatingConnector : option Connector) (ctx : Web3Context)
    : list ConnectorButton :=
  map (connectorButton triedEager activatingConnector ctx) registryKeys.

(** The effect on [activatingConnector, connector]: the value of the
    marker once the effect has run. *)
Definition activatingEffect (activatingConnector connector : option Connector)
    : option Connector :=
  match activatingConnector with
  | Some a => if same_ref a connector then None else Some a
  | None => None
  end.

(** The part of [App] the marker depends on. *)
Record AppState : Type := {
  activatingConnector : option Connector;
  context : Web3Context;
  triedEager : bool;
  activateCalls : list Connector
}.

Inductive AppEvent : Type :=
| Click (name : ConnectorNames)
| ContextChange (ctx : Web3Context)
| EagerTried.

(** [onClick] of a connector button; a disabled button fires nothing. *)
Definition onClick (name : ConnectorNames) (s : AppState) : AppState :=
  if disabled (connectorButton (triedEager s) (activatingConnector s)
                 (context s) name)
  then s
  else {| activatingConnector := Some (connectorsByName name);
          context := context s;
          triedEager := triedEager s;
          activateCalls := activateCalls s ++ [connectorsByName name] |}.

Definition runEffect (s : AppState) : AppState :=
  {| activatingConnector :=
       activatingEffect (activatingConnector s) (connector (context s));
     context := context s;
     triedEager := triedEager s;
     activateCalls := activateCalls s |}.

(** One event, followed by the render it causes and the effect. *)
Definition appStep (s : AppState) (e : AppEvent) : AppState :=
  runEffect
    match e with
    | Click name => onClick name s
    | ContextChange ctx =>
        {| activatingConnector := activatingConnector s;
           context := ctx;
           triedEager := triedEager s;
           activateCalls := activateCalls s |}
    | EagerTried =>
        {| activatingConnector := activatingConnector s;
           context := context s;
           triedEager := true;
           activateCalls := activateCalls s |}
    end.

Definition mount (ctx : Web3Context) : AppState :=
  runEffect {| activatingConnector := None;
               context := ctx;
               triedEager := false;
               activateCalls := [] |}.

Definition appRun (ctx : Web3Context) (events : list AppEvent) : AppState :=
  fold_left appStep events (mount ctx).

(** [Header]: [active ? green : error ? red : orange]. *)
Definition headerStatus (ctx : Web3Context) : StatusMark :=
  if active ctx then Green
  else if is_Some' (error ctx) then Red
  else Orange.

(** [(active || error) && <button>Deactivate</button>] *)
Definition deactivateShown (ctx : Web3Context) : bool :=
  active ctx || is_Some' (error ctx).

(** [!!error && <h4>{getErrorMessage(error)}</h4>] *)
Definition errorShown (ctx : Web3Context) : option string :=
  match error ctx with
  | Some e => Some (Errors.getErrorMessage e)
  | None => None
  end.

(** The argument of [useInactiveListener]. *)
Definition suppressInactiveListener (triedEager : bool)
    (activatingConnector : option Connector) : bool :=
  negb triedEager || is_Some' activatingConnector.

(** [connector === connectorsByName[name] && <button>label</button>], the
    button calling [close]. *)
Definition killButton (name : ConnectorNames) (label : string)
    (ctx : Web3Context) : list SessionButton :=
  if same_ref (connectorsByName name) (connector ctx)
  then [{| sessionLabel := label; sessionCall := Close |}]
  else [].

(** The buttons of the last grid of [App], in the order of the source. *)
Definition sessionControls (ctx : Web3Context) : list SessionButton :=
  (if same_ref (connectorsByName Network) (connector ctx)
      && truthy_chainId (chainId ctx)
   then [{| sessionLabel := "Switch Networks";
            sessionCall :=
              ChangeChainId (if is_chain 1 (chainId ctx) then 4 else 1) |}]
   else [])
  ++ killButton WalletConnect "Kill WalletConnect Session" ctx
  ++ killButton WalletLink "Kill WalletLink Session" ctx
  ++ killButton Fortmatic "Kill Fortmatic Session" ctx
  ++ killButton Magic "Kill Magic Session" ctx
  ++ (if same_ref (connectorsByName Portis) (connector ctx)
      then (if is_Some' (chainId ctx)
            then [{| sessionLabel := "Switch Networks";
                     sessionCall :=
                       ChangeNetwork
                         (if is_chain 1 (chainId ctx) then 100 else 1) |}]
            else [])
           ++ [{| sessionLabel := "Kill Portis Session";
                  sessionCall := Close |}]
      else [])
  ++ killButton Torus "Kill Torus Session" ctx.

End Connectors.

Arguments Web3Context Connector : clear implicits.
Arguments AppState Connector : clear implicits.
Arguments AppEvent Connector : clear implicits.

(** A registry to run the definitions on: each key has its own connector. *)
Definition sampleRegistry (name : ConnectorNames) : nat :=
  match name with
  | Injected => 0 | Network => 1 | WalletConnect => 2 | WalletLink => 3
  | Ledger => 4 | Trezor => 5 | Lattice => 6 | Frame => 7 | Authereum => 8
  | Fortmatic => 9 | Magic => 10 | Portis => 11 | Torus => 12
  end.

Definition disconnected : Web3Context nat :=
  {| connector := None; library := None; chainId := None; account := None;
     active := false; error := None |}.

Definition connectedTo (c : nat) : Web3Context nat :=
  {| connector := Some c; library := Some getLibrary; chainId := Some 1%N;
     account := Some "0x00a1"; active := true; error := None |}.

(** More contexts and states of [App] to run the definitions on. *)
Definition erroredContext : Web3Context nat :=
  {| connector := None; library := None; chainId := None; account := None;
     active := false; error := Some Errors.UnsupportedChainIdError |}.

Definition readyState : AppState nat :=
  {| activatingConnector := None; context := disconnected;
     triedEager := true; activateCalls := [] |}.

Definition activatingState : AppState nat :=
  {| activatingConnector := Some 7; context := disconnected;
     triedEager := true; activateCalls := [7] |}.

(** The labels of the buttons that call [close]. *)
Definition closeLabels (buttons : list SessionButton) : list string :=
  omap (fun b => match sessionCall b with
                 | Close => Some (sessionLabel b)
                 | _ => None
                 end) buttons.

(** An event of [App] other than a change of the context. *)
Definition noContextChange {Connector : Type} (e : AppEvent Connector) : Prop :=
  match e with ContextChange _ => False | _ => True end.

End Wallet.

(** ** The staking panel [Interact] *)

Module Staking.

Inductive Collection : Type := Cranium | Stallion.

#[global] Instance Collection_eq_dec : EqDecision Collection.
Proof. solve_decision. Defined.

Definition other (c : Collection) : Collection :=
  match c with Cranium => Stallion | Stallion => Cranium end.

(** A pair of values, one for each collection. *)
Record Both (A : Type) : Type := both { ofCranium : A; ofStallion : A }.
Arguments both {A} _ _.
Arguments ofCranium {A} _.
Arguments ofStallion {A} _.

Definition pick {A} (c : Collection) (p : Both A) : A :=
  match c with Cranium => ofCranium p | Stallion => ofStallion p end.

Definition put {A} (c : Collection) (x : A) (p : Both A) : Both A :=
  match c with
  | Cranium => both x (ofStallion p)
  | Stallion => both (ofCranium p) x
  end.

(** *** Checked sets *)

(** [[n, ...checked]] *)
Definition check (n : N) (checked : list N) : list N := n :: checked.

(** [checked.filter((e) => e !== n)] *)
Definition uncheck (n : N) (checked : list N) : list N :=
  List.filter (fun e => negb (N.eqb e n)) checked.

(** [onChange] of the checkbox of token [n]; [target_checked] is
    [e.target.checked]. *)
Definition onChange (target_checked : bool) (n : N) (checked : list N)
    : list N :=
  if target_checked then check n checked else uncheck n checked.

(** *** What the panel renders *)

(** The four [useState] cells. *)
Record State : Type := {
  craniumBalance : list N;
  stallionBalance : list N;
  checkedCraniums : list N;
  checkedStallions : list N
}.

Definition initialState : State :=
  {| craniumBalance := []; stallionBalance := [];
     checkedCraniums := []; checkedStallions := [] |}.

Definition owned (c : Collection) (st : State) : list N :=
  match c with Cranium => craniumBalance st | Stallion => stallionBalance st end.

Definition checked (c : Collection) (st : State) : list N :=
  match c with Cranium => checkedCraniums st | Stallion => checkedStallions st end.

Definition setOwned (c : Collection) (ids : list N) (st : State) : State :=
  match c with
  | Cranium =>
      {| craniumBalance := ids; stallionBalance := stallionBalance st;
         checkedCraniums := checkedCraniums st;
         checkedStallions := checkedStallions st |}
  | Stallion =>
      {| craniumBalance := craniumBalance st; stallionBalance := ids;
         checkedCraniums := checkedCraniums st;
         checkedStallions := checkedStallions st |}
  end.

Definition setChecked (c : Collection) (ids : list N) (st : State) : State :=
  match c with
  | Cranium =>
      {| craniumBalance := craniumBalance st;
         stallionBalance := stallionBalance st;
         checkedCraniums := ids;
         checkedStallions := checkedStallions st |}
  | Stallion =>
      {| craniumBalance := craniumBalance st;
         stallionBalance := stallionBalance st;
         checkedCraniums := checkedCraniums st;
         checkedStallions := ids |}
  end.

Record Props : Type := {
  library : option Wallet.Web3Provider;
  account : option string
}.

(** One checkbox: its position in the owned sequence and its token. *)
Record Checkbox : Type := {
  boxCollection : Collection;
  boxIndex : nat;
  boxToken : N
}.

(** [balance.map((n, i) => <input ... />)] *)
Definition checkboxes (c : Collection) (balance : list N) : list Checkbox :=
  imap (fun i n => {| boxCollection := c; boxIndex := i; boxToken := n |})
       balance.

Record Panel : Type := {
  craniumHeading : bool;
  craniumBoxes : list Checkbox;
  stallionHeading : bool;
  stallionBoxes : list Checkbox;
  stakeDisabled : bool
}.

(** The [disabled] attribute of the Stake button. *)
Definition stakeButtonDisabled (checkedCraniums checkedStallions : list N)
    : bool :=
  negb (length checkedCraniums =? length checkedStallions)%nat
  || (length checkedCraniums =? 0)%nat
  || (length checkedStallions =? 0)%nat.

(** The component: [None] is the [false] React renders as nothing. *)
Definition Interact (props : Props) (st : State) : option Panel :=
  if is_Some' (library props) && truthy_string (account props)
  then Some {| craniumHeading := (0 <? length (craniumBalance st))%nat;
               craniumBoxes := checkboxes Cranium (craniumBalance st);
               stallionHeading := (0 <? length (stallionBalance st))%nat;
               stallionBoxes := checkboxes Stallion (stallionBalance st);
               stakeDisabled :=
                 stakeButtonDisabled (checkedCraniums st) (checkedStallions st) |}
  else None.

(** *** Contract calls *)

Inductive Contract : Type :=
| TokenContract (c : Collection)
| StakingContract.

(** A call on a contract built with the signer of [props.account]. *)
Inductive Call : Type :=
| SetApprovalForAll (c : Collection) (operator : Contract) (approved : bool)
| BalanceOf (c : Collection) (owner : string)
| TokenOfOwnerByIndex (c : Collection) (owner : string) (index : nat)
| Stake (craniums stallions : list N).

Inductive Control : Type :=
| ApproveCraniums | ApproveStallions | FetchButton | StakeButton.

(** The calls a click on a control issues before its handler returns.  A
    control that is not rendered, or is disabled, cannot be clicked. *)
Definition click (ctl : Control) (props : Props) (st : State) : list Call :=
  match Interact props st, account props with
  | Some panel, Some acct =>
      match ctl with
      | ApproveCraniums => [SetApprovalForAll Cranium StakingContract true]
      | ApproveStallions => [SetApprovalForAll Stallion StakingContract true]
      | FetchButton => [BalanceOf Cranium acct; BalanceOf Stallion acct]
      | StakeButton =>
          if stakeDisabled panel then []
          else [Stake (checkedCraniums st) (checkedStallions st)]
      end
  | _, _ => []
  end.

(** *** Alerts *)

(** What a rejected promise carries, as far as the handlers look:
    [error.message] when [error] is an object that has one. *)
Definition Reason : Type := option string.

(** The argument of [window.alert]: the headline, and the message that
    follows it (after a blank line, JSON-encoded) when
    [error && error.message] is truthy. *)
Record Alert : Type := { headline : string; detail : option string }.

Definition failureAlert (headline : string) (error : Reason) : Alert :=
  {| headline := headline;
     detail := if truthy_string error then error else None |}.

(** A connected panel and a panel without account, to run the definitions
    on. *)
Definition connectedProps : Props :=
  {| library := Some Wallet.getLibrary; account := Some "0x00a1" |}.

Definition accountlessProps : Props :=
  {| library := Some Wallet.getLibrary; account := None |}.

Definition pairedState : State :=
  {| craniumBalance := [30%N; 40%N]; stallionBalance := [9%N];
     checkedCraniums := [40%N]; checkedStallions := [9%N] |}.

End Staking.

(** ** The Fetch handler, as a transition system

    The handler issues the two balance queries and returns; the rest runs
    when the promises settle.  A transition is the settlement of one
    contract call by the provider, followed by every promise reaction it
    enables (reactions are microtasks: they all run before the next
    settlement is delivered). *)

Module Fetch.
Import Staking.

(** A settled promise. *)
Inductive Settled (A : Type) : Type :=
| Fulfilled (value : A)
| Rejected (error : Reason).
Arguments Fulfilled {A} _.
Arguments Rejected {A} _.

(** A promise: [None] while pending. *)
Abbreviation Promise A := (option (Settled A)).

(** [Number(v)] on an integer returned by a contract: the nearest double,
    ties to even; exact below 2^53. *)
Definition Number (v : N) : N :=
  if (v <? 2 ^ 53)%N then v
  else
    let k := (N.log2 v - 52)%N in
    let q := N.shiftr v k in
    let r := N.land v (N.ones k) in
    let half := N.shiftl 1 (k - 1) in
    let q' := if (half <? r)%N || ((r =? half)%N && N.odd q)
              then (q + 1)%N else q in
    N.shiftl q' k.

(** [Array(n)]: the length of the new array, or [None] for the RangeError
    thrown when [n] is not below 2^32. *)
Definition arrayLength (n : N) : option nat :=
  if (n <? 2 ^ 32)%N then Some (N.to_nat n) else None.

Definition rangeError : Reason := Some "Invalid array length".

(** The engine the page runs on.  [apply] passes the elements of an array
    as arguments, and an engine throws a RangeError when they are more
    than it takes; the language leaves the bound to the engine.  An engine
    takes one argument and [extraArguments] more; [tooManyArguments] is
    what its RangeError carries. *)
Record Engine : Type := {
  extraArguments : nat;
  tooManyArguments : Reason
}.

Definition maxArguments (engine : Engine) : nat := S (extraArguments engine).

(** An engine that takes 65536 arguments. *)
Definition sampleEngine : Engine :=
  {| extraArguments := N.to_nat 65535;
     tooManyArguments := Some "Maximum call stack size exceeded" |}.

(** [Array.apply(null, a)] for the array [a] of length [n] that [Array(n)]
    made: [n] times [undefined], or [None] for the RangeError of an engine
    that does not take [n] arguments. *)
Definition undefineds (engine : Engine) (n : nat) : option (list unit) :=
  if (n <=? maxArguments engine)%nat then Some (replicate n tt) else None.

Inductive Event : Type :=
| EvGetSigner (account : string)
| EvCall (call : Call)
| EvSettle (call : Call) (outcome : Settled N)
| EvLog (error : Reason)
| EvAlert (alert : Alert)
| EvSet (c : Collection) (ids : list N).

(** Where the chain [Promise.all([...]).then(...).catch(...)] stands. *)
Inductive Chain : Type :=
| AwaitingBalances
| LookupsIssued
| Caught.

Record FetchState : Type := {
  acct : string;
  balances : Both (Promise N);
  chain : Chain;
  lookups : Both (list (Promise N));
  ui : State;
  trace : list Event
}.

Definition emit (evs : list Event) (s : FetchState) : FetchState :=
  {| acct := acct s; balances := balances s; chain := chain s;
     lookups := lookups s; ui := ui s; trace := trace s ++ evs |}.

Definition withBalance (c : Collection) (p : Promise N) (s : FetchState)
    : FetchState :=
  {| acct := acct s; balances := put c p (balances s); chain := chain s;
     lookups := lookups s; ui := ui s; trace := trace s |}.

Definition withChain (ch : Chain) (s : FetchState) : FetchState :=
  {| acct := acct s; balances := balances s; chain := ch;
     lookups := lookups s; ui := ui s; trace := trace s |}.

Definition withLookups (c : Collection) (l : list (Promise N))
    (s : FetchState) : FetchState :=
  {| acct := acct s; balances := balances s; chain := chain s;
     lookups := put c l (lookups s); ui := ui s; trace := trace s |}.

(** [setCraniumBalance(ids)] / [setStallionBalance(ids)] *)
Definition setBalance (c : Collection) (ids : list N) (s : FetchState)
    : FetchState :=
  emit [EvSet c ids]
    {| acct := acct s; balances := balances s; chain := chain s;
       lookups := lookups s; ui := setOwned c ids (ui s); trace := trace s |}.

(** The [onClick] of the Fetch button, up to its return. *)
Definition clickFetch (account : string) (st : State) : FetchState :=
  {| acct := account;
     balances := both None None;
     chain := AwaitingBalances;
     lookups := both [] [];
     ui := st;
     trace := [EvGetSigner account;
               EvCall (BalanceOf Cranium account);
               EvCall (BalanceOf Stallion account)] |}.

(** The [.catch] callback. *)
Definition catchFetch (error : Reason) (s : FetchState) : FetchState :=
  emit [EvLog error;
        EvAlert (failureAlert "Failure fetching Cranium & Stallion balance!"
                              error)]
       (withChain Caught s).

(** [a.map((_e, i) => c.tokenOfOwnerByIndex(account, i))] over the array
    [a] of [undefined]s: the calls it issues, and the pending promises it
    returns. *)
Definition tokenCalls (c : Collection) (account : string) (a : list unit)
    : list Event :=
  imap (fun i _ => EvCall (TokenOfOwnerByIndex c account i)) a.

Definition issueLookups (c : Collection) (a : list unit) (s : FetchState)
    : FetchState :=
  emit (tokenCalls c (acct s) a)
       (withLookups c ((fun _ => None) <$> a) s).

(** The values of the lookups when every one is fulfilled: what
    [Promise.all] fulfils with. *)
Fixpoint allFulfilled (l : list (Promise N)) : option (list N) :=
  match l with
  | [] => Some []
  | Some (Fulfilled v) :: l' =>
      match allFulfilled l' with
      | Some vs => Some (v :: vs)
      | None => None
      end
  | _ :: _ => None
  end.

(** The reaction attached with [Promise.all(token_promises).then(...)]:
    it runs once the lookups of [c] are all fulfilled. *)
Definition whenAllFulfilled (c : Collection) (s : FetchState) : FetchState :=
  match allFulfilled (pick c (lookups s)) with
  | Some token_array => setBalance c (map Number token_array) s
  | None => s
  end.

Section WithEngine.
Variable engine : Engine.

(** The [.then] callback of the balances.  An exception leaves it at the
    point it is thrown and is passed to [.catch]: [Array(...)] throws for
    a number that is not an array length, [apply] for more arguments than
    the engine takes. *)
Definition thenBalances (cranium_balance stallion_balance : N)
    (s : FetchState) : FetchState :=
  match arrayLength (Number cranium_balance) with
  | None => catchFetch rangeError s
  | Some nc =>
      match undefineds engine nc with
      | None => catchFetch (tooManyArguments engine) s
      | Some cranium_undefineds =>
          let s1 := issueLookups Cranium cranium_undefineds s in
          match arrayLength (Number stallion_balance) with
          | None => catchFetch rangeError s1
          | Some ns =>
              match undefineds engine ns with
              | None => catchFetch (tooManyArguments engine) s1
              | Some stallion_undefineds =>
                  let s2 := issueLookups Stallion stallion_undefineds s1 in
                  whenAllFulfilled Stallion
                    (whenAllFulfilled Cranium (withChain LookupsIssued s2))
              end
          end
      end
  end.

(** The number of lookups the callback issues for a balance, when neither
    [Array] nor [apply] throws on it. *)
Definition lookupCount (balance : N) : option nat :=
  match arrayLength (Number balance) with
  | Some n =>
      match undefineds engine n with
      | Some a => Some (length a)
      | None => None
      end
  | None => None
  end.

(** The provider settles the balance query of [c]. *)
Definition settleBalance (c : Collection) (o : Settled N) (s : FetchState)
    : option FetchState :=
  match pick c (balances s) with
  | Some _ => None
  | None =>
      let s1 :=
        emit [EvSettle (BalanceOf c (acct s)) o] (withBalance c (Some o) s) in
      Some
        match chain s1, o with
        | AwaitingBalances, Rejected e => catchFetch e s1
        | AwaitingBalances, Fulfilled _ =>
            match ofCranium (balances s1), ofStallion (balances s1) with
            | Some (Fulfilled cb), Some (Fulfilled sb) => thenBalances cb sb s1
            | _, _ => s1
            end
        | _, _ => s1
        end
  end.

(** The provider settles lookup [i] of [c]. *)
Definition settleLookup (c : Collection) (i : nat) (o : Settled N)
    (s : FetchState) : option FetchState :=
  match pick c (lookups s) !! i with
  | Some None =>
      let s1 :=
        emit [EvSettle (TokenOfOwnerByIndex c (acct s) i) o]
             (withLookups c (<[i := Some o]> (pick c (lookups s))) s) in
      Some
        match chain s1 with
        | LookupsIssued => whenAllFulfilled c s1
        | _ => s1
        end
  | _ => None
  end.

Inductive Action : Type :=
| SettleBalance (c : Collection) (o : Settled N)
| SettleLookup (c : Collection) (i : nat) (o : Settled N).

Definition step (a : Action) (s : FetchState) : option FetchState :=
  match a with
  | SettleBalance c o => settleBalance c o s
  | SettleLookup c i o => settleLookup c i o s
  end.

(** A run: [None] when some action is not enabled where it comes. *)
Fixpoint run (acts : list Action) (s : FetchState) : option FetchState :=
  match acts with
  | [] => Some s
  | a :: acts' =>
      match step a s with
      | Some s' => run acts' s'
      | None => None
      end
  end.

End WithEngine.

(** A balance the callback can issue the lookups of: an array length, of
    no more elements than the engine's [apply] takes as arguments. *)
Definition usableBalance (engine : Engine) (balance : N) : Prop :=
  (balance < 2 ^ 32)%N /\ N.to_nat balance <= maxArguments engine.

(** Views of a trace. *)
Definition lookupIndices (c : Collection) (tr : list Event) : list nat :=
  omap (fun ev =>
          match ev with
          | EvCall (TokenOfOwnerByIndex c' _ i) =>
              if decide (c' = c) then Some i else None
          | _ => None
          end) tr.

(** The lookup calls on the contract of [c], owner and index. *)
Definition lookupCalls (c : Collection) (tr : list Event) : list Call :=
  omap (fun ev =>
          match ev with
          | EvCall (TokenOfOwnerByIndex c' owner i) =>
              if decide (c' = c)
              then Some (TokenOfOwnerByIndex c' owner i) else None
          | _ => None
          end) tr.

(** An event that is no contract call for another owner than [account]. *)
Definition byAccount (account : string) (ev : Event) : Prop :=
  match ev with
  | EvCall (BalanceOf _ owner) => owner = account
  | EvCall (TokenOfOwnerByIndex _ owner _) => owner = account
  | _ => True
  end.

Definition setterCalls (c : Collection) (tr : list Event) : list (list N) :=
  omap (fun ev =>
          match ev with
          | EvSet c' ids => if decide (c' = c) then Some ids else None
          | _ => None
          end) tr.

Definition alerts (tr : list Event) : list Alert :=
  omap (fun ev => match ev with EvAlert a => Some a | _ => None end) tr.

(** A schedule that fulfils the lookups of [c] from index [i] on, in index
    order, with the values [vs]. *)
Fixpoint fulfilFrom (c : Collection) (i : nat) (vs : list N) : list Action :=
  match vs with
  | [] => []
  | v :: vs' => SettleLookup c i (Fulfilled v) :: fulfilFrom c (S i) vs'
  end.

(** The two balance queries fulfilled, Cranium first. *)
Definition fulfilBalances (cranium_balance stallion_balance : N) : list Action :=
  [SettleBalance Cranium (Fulfilled cranium_balance);
   SettleBalance Stallion (Fulfilled stallion_balance)].

(** The lookups a callback has issued when it throws on one of the
    balances: none when it throws on the Cranium balance, the Craniums'
    when it throws on the Stallion balance. *)
Definition issuedBeforeThrow (engine : Engine) (cb sb : N)
    (l : Both (list (Promise N))) : Prop :=
  match lookupCount engine cb with
  | None => l = both [] []
  | Some nc =>
      lookupCount engine sb = None
      /\ length (ofCranium l) = nc
      /\ ofStallion l = []
  end.

(** What holds of every state a run reaches from a click on Fetch with
    account [account] and panel state [st0]. *)
Record Inv (engine : Engine) (account : string) (st0 : State)
    (s : FetchState) : Prop := {
  inv_acct : acct s = account;
  inv_checked : forall c, checked c (ui s) = checked c st0;
  inv_calls : forall c,
    lookupIndices c (trace s) = seq 0 (length (pick c (lookups s)));
  inv_chain :
    match chain s with
    | AwaitingBalances =>
        lookups s = both [] []
        /\ ui s = st0
        /\ alerts (trace s) = []
        /\ (forall c, setterCalls c (trace s) = [])
        /\ (forall c e, pick c (balances s) <> Some (Rejected e))
        /\ (exists c, pick c (balances s) = None)
    | LookupsIssued =>
        alerts (trace s) = []
        /\ exists cb sb,
             balances s = both (Some (Fulfilled cb)) (Some (Fulfilled sb))
             /\ lookupCount engine cb
                = Some (length (ofCranium (lookups s)))
             /\ lookupCount engine sb
                = Some (length (ofStallion (lookups s)))
             /\ forall c,
                  match allFulfilled (pick c (lookups s)) with
                  | Some vs =>
                      owned c (ui s) = map Number vs
                      /\ setterCalls c (trace s) = [map Number vs]
                  | None =>
                      owned c (ui s) = owned c st0
                      /\ setterCalls c (trace s) = []
                  end
    | Caught =>
        ui s = st0
        /\ length (alerts (trace s)) = 1
        /\ (forall c, setterCalls c (trace s) = [])
        /\ ((exists c e, pick c (balances s) = Some (Rejected e))
            \/ (exists cb sb,
                  balances s = both (Some (Fulfilled cb)) (Some (Fulfilled sb))
                  /\ issuedBeforeThrow engine cb sb (lookups s)))
    end
}.

(** The balance queries come before the lookups: in a trace, a lookup call
    has the fulfilment of both balance queries before it. *)
Definition balancesBeforeLookups (account : string) (tr : list Event) : Prop :=
  forall pre post c owner i,
    tr = pre ++ EvCall (TokenOfOwnerByIndex c owner i) :: post ->
    forall c', exists v, EvSettle (BalanceOf c' account) (Fulfilled v) ∈ pre.

(** [ev1] occurs in the trace, and [ev2] occurs after it. *)
Definition precedes (ev1 ev2 : Event) (tr : list Event) : Prop :=
  exists pre mid post, tr = pre ++ ev1 :: mid ++ ev2 :: post.

Definition isLookupCall (ev : Event) : Prop :=
  match ev with EvCall (TokenOfOwnerByIndex _ _ _) => True | _ => False end.

(** The balances recorded as fulfilled have their settlement in the trace. *)
Definition settlementsLogged (s : FetchState) : Prop :=
  forall c v, pick c (balances s) = Some (Fulfilled v) ->
              EvSettle (BalanceOf c (acct s)) (Fulfilled v) ∈ trace s.

Record Ordered (s : FetchState) : Prop := {
  ord_trace : balancesBeforeLookups (acct s) (trace s);
  ord_logged : settlementsLogged s
}.

(** The shapes of a transition. *)
Definition afterLookup (c : Collection) (i : nat) (o : Settled N)
    (s : FetchState) : FetchState :=
  emit [EvSettle (TokenOfOwnerByIndex c (acct s) i) o]
       (withLookups c (<[i := Some o]> (pick c (lookups s))) s).

Definition afterBalance (c : Collection) (o : Settled N) (s : FetchState)
    : FetchState :=
  emit [EvSettle (BalanceOf c (acct s)) o] (withBalance c (Some o) s).

Definition fulfilled (vs : list N) : list (Promise N) :=
  (fun v => Some (Fulfilled v)) <$> vs.

(** Runs to try the theorems on. *)
Definition rejectedBalanceRun : list Action :=
  [SettleBalance Stallion (Rejected (Some "network error"));
   SettleBalance Cranium (Fulfilled 2%N)].

Definition rejectedLookupRun : list Action :=
  [SettleBalance Cranium (Fulfilled 2%N);
   SettleBalance Stallion (Fulfilled 1%N);
   SettleLookup Cranium 1 (Rejected None);
   SettleLookup Stallion 0 (Fulfilled 9%N);
   SettleLookup Cranium 0 (Fulfilled 30%N)].

Definition completeRun : list Action :=
  [SettleBalance Stallion (Fulfilled 1%N);
   SettleBalance Cranium (Fulfilled 2%N);
   SettleLookup Cranium 1 (Fulfilled 40%N);
   SettleLookup Stallion 0 (Fulfilled 9%N);
   SettleLookup Cranium 0 (Fulfilled 30%N)].

End Fetch.

(** ** The handlers of Approve and Stake *)

Module Handlers.
Import Staking Fetch.

(** The operations of the panel that end in [.catch]. *)
Inductive Operation : Type :=
| Approve (c : Collection)
| FetchOwned
| StakeChecked.

(** The text each [.catch] alerts with. *)
Definition failureHeadline (op : Operation) : string :=
  match op with
  | Approve Cranium => "Failure approving Craniums!"
  | Approve Stallion => "Failure approving Stallions!"
  | FetchOwned => "Failure fetching Cranium & Stallion balance!"
  | StakeChecked => "Staking transaction could not be sent!"
  end.

(** What a handler writes once its call has settled; [A] is the type of
    the transaction response. *)
Inductive Output (A : Type) : Type :=
| ConsoleLog (text : string)
| ConsoleLogValue (res : A)
| ConsoleLogError (error : Reason)
| WindowAlert (alert : Alert).
Arguments ConsoleLog {A} _.
Arguments ConsoleLogValue {A} _.
Arguments ConsoleLogError {A} _.
Arguments WindowAlert {A} _.

(** [.then((res) => ...).catch((error) => ...)] of an Approve button. *)
Definition approveSettled {A} (c : Collection) (o : Settled A)
    : list (Output A) :=
  match o with
  | Fulfilled res =>
      [ConsoleLog match c with
                  | Cranium => "successful cranium approval"
                  | Stallion => "successful stallion approval"
                  end;
       ConsoleLogValue res]
  | Rejected error =>
      [ConsoleLogError error;
       WindowAlert (failureAlert (failureHeadline (Approve c)) error)]
  end.

(** The same for the Stake button. *)
Definition stakeSettled {A} (o : Settled A) : list (Output A) :=
  match o with
  | Fulfilled res => [ConsoleLog "staking transaction done"; ConsoleLogValue res]
  | Rejected error =>
      [ConsoleLogError error;
       WindowAlert (failureAlert (failureHeadline StakeChecked) error)]
  end.

Definition alertsOf {A} (out : list (Output A)) : list Alert :=
  omap (fun o => match o with WindowAlert a => Some a | _ => None end) out.

(** The checked set after a sequence of [onChange] events on one
    collection, each the new state of a box and its token. *)
Definition changes (events : list (bool * N)) (checked : list N) : list N :=
  fold_left (fun acc e => onChange (fst e) (snd e) acc) events checked.

End Handlers.

(** ** The display components *)

Module Display.

(** A value that is [null], [undefined] or present. *)
Inductive Nullable (A : Type) : Type :=
| JsNull
| JsUndefined
| JsValue (a : A).
Arguments JsNull {A}.
Arguments JsUndefined {A}.
Arguments JsValue {A} _.

(** An index of [substring], brought into the string: below 0 it is 0,
    above the length it is the length. *)
Definition clampIndex (len : nat) (i : Z) : nat :=
  Z.to_nat (Z.min (Z.max i 0) (Z.of_nat len)).

(** [s.substring(indexStart, indexEnd)]: the two indices are clamped and
    put in order. *)
Definition js_substring (s : string) (indexStart indexEnd : Z) : string :=
  let a := clampIndex (String.length s) indexStart in
  let b := clampIndex (String.length s) indexEnd in
  String.substring (Nat.min a b) (Nat.max a b - Nat.min a b) s.

(** [s.substring(indexStart)] *)
Definition js_substring_from (s : string) (indexStart : Z) : string :=
  js_substring s indexStart (Z.of_nat (String.length s)).

(** The text of [Account]. *)
Definition accountText (account : Nullable string) : string :=
  match account with
  | JsNull => "-"
  | JsValue a =>
      if String.eqb a "" then ""
      else js_substring a 0 6 +:+ "..."
           +:+ js_substring_from a (Z.of_nat (String.length a) - 4)
  | JsUndefined => ""
  end.

(** One run of the effect of [BlockNumber] that found a library: its
    [stale] flag, and whether its listener [updateBlockNumber] is
    registered for "block". *)
Record EffectRun : Type := {
  stale : bool;
  listening : bool
}.

(** [BlockNumber]: the state cell, the runs of the effect that found a
    library, oldest first, the run whose cleanup React holds, and whether
    the component has been unmounted. *)
Record BlockNumberState : Type := {
  blockNumber : Nullable N;
  effectRuns : list EffectRun;
  cleanup : option nat;
  unmounted : bool
}.

(** React runs the effect after the first render and after every render
    in which [library] or [chainId] is another than in the render before,
    the cleanup of the run before first; it runs the cleanup when the
    component is unmounted.  The query of a run resolves or is rejected,
    and the provider of a run emits "block". *)
Inductive BlockNumberEvent : Type :=
| Effect (library : bool)
| Unmount
| GetBlockNumberResolved (run : nat) (blockNumber : N)
| GetBlockNumberRejected (run : nat)
| Block (run : nat) (blockNumber : N).

(** The first render: [useState()]. *)
Definition firstRender : BlockNumberState :=
  {| blockNumber := JsUndefined; effectRuns := []; cleanup := None;
     unmounted := false |}.

Definition setBlockNumber (v : Nullable N) (s : BlockNumberState)
    : BlockNumberState :=
  {| blockNumber := v; effectRuns := effectRuns s; cleanup := cleanup s;
     unmounted := unmounted s |}.

(** The function the effect returned, when it returned one. *)
Definition runCleanup (s : BlockNumberState) : BlockNumberState :=
  match cleanup s with
  | Some k =>
      setBlockNumber JsUndefined
        {| blockNumber := blockNumber s;
           effectRuns :=
             <[k := {| stale := true; listening := false |}]> (effectRuns s);
           cleanup := None;
           unmounted := unmounted s |}
  | None => s
  end.

(** The effect: without a library it does nothing and returns nothing. *)
Definition runEffect (library : bool) (s : BlockNumberState)
    : BlockNumberState :=
  if library then
    {| blockNumber := blockNumber s;
       effectRuns := effectRuns s ++ [{| stale := false; listening := true |}];
       cleanup := Some (length (effectRuns s));
       unmounted := unmounted s |}
  else
    {| blockNumber := blockNumber s; effectRuns := effectRuns s;
       cleanup := None; unmounted := unmounted s |}.

Definition blockNumberStep (s : BlockNumberState) (e : BlockNumberEvent)
    : BlockNumberState :=
  match e with
  | Effect library =>
      if unmounted s then s else runEffect library (runCleanup s)
  | Unmount =>
      if unmounted s then s
      else
        let s' := runCleanup s in
        {| blockNumber := blockNumber s'; effectRuns := effectRuns s';
           cleanup := cleanup s'; unmounted := true |}
  | GetBlockNumberResolved k n =>
      match effectRuns s !! k with
      | Some r => if stale r then s else setBlockNumber (JsValue n) s
      | None => s
      end
  | GetBlockNumberRejected k =>
      match effectRuns s !! k with
      | Some r => if stale r then s else setBlockNumber JsNull s
      | None => s
      end
  | Block k n =>
      match effectRuns s !! k with
      | Some r => if listening r then setBlockNumber (JsValue n) s else s
      | None => s
      end
  end.

Definition blockNumberRun (events : list BlockNumberEvent) : BlockNumberState :=
  fold_left blockNumberStep events firstRender.

(** The run of the effect an event comes from. *)
Definition runOf (e : BlockNumberEvent) : option nat :=
  match e with
  | GetBlockNumberResolved k _ | GetBlockNumberRejected k | Block k _ => Some k
  | Effect _ | Unmount => None
  end.

(** An event of a run of the effect that is not the running one. *)
Definition staleEvent (s : BlockNumberState) (e : BlockNumberEvent) : Prop :=
  match runOf e with
  | Some k => cleanup s <> Some k
  | None => False
  end.

(** What the third span shows: the text Error, nothing, or the number. *)
Inductive BlockNumberText : Type :=
| TextError
| TextBlank
| TextNumber (n : N).

Definition blockNumberText (v : Nullable N) : BlockNumberText :=
  match v with
  | JsNull => TextError
  | JsUndefined => TextBlank
  | JsValue n => TextNumber n
  end.

(** What holds of the runs of the effect in every state: the running one
    is not stale and listens, the others are stale and do not listen; and
    with no running one the state cell is [undefined]. *)
Record Coherent (s : BlockNumberState) : Prop := {
  coherent_runs : forall k r,
    effectRuns s !! k = Some r ->
    if decide (cleanup s = Some k)
    then stale r = false /\ listening r = true
    else stale r = true /\ listening r = false;
  coherent_running : forall k,
    cleanup s = Some k -> k < length (effectRuns s);
  coherent_blank : cleanup s = None -> blockNumber s = JsUndefined;
  coherent_unmounted : unmounted s = true -> cleanup s = None
}.

(** The life of a component through a change of chain. *)
Definition chainChanged : list BlockNumberEvent :=
  [Effect true; GetBlockNumberResolved 0 5%N; Effect true;
   Block 0 6%N; GetBlockNumberResolved 1 7%N].

End Display.

(** * Properties *)

(** ** Error messages *)

Module ErrorsFacts.
Import Errors.

Lemma fixedMessages_NoDup : NoDup fixedMessages.
Proof.
  unfold fixedMessages.
  repeat (apply NoDup_cons_2;
          [ rewrite ?elem_of_cons, elem_of_nil; intros H;
            intuition discriminate | ]).
  apply NoDup_nil_2.
Qed.

Lemma isUserRejection_cases (e : Error) :
  isUserRejection e = true <->
  e = UserRejectedRequestErrorInjected
  \/ e = UserRejectedRequestErrorWalletConnect
  \/ e = UserRejectedRequestErrorFrame.
Proof.
  destruct e; cbn; split; intros H; try discriminate; auto;
    destruct H as [H | [H | H]]; discriminate.
Qed.

(** C7: a user-rejection error, whichever of the three connectors it comes
    from, is mapped to the one "Please authorize ..." string, and every
    error is mapped to one of the four fixed strings, which are pairwise
    different. *)
Theorem getErrorMessage_user_rejection :
  (forall e : Error, isUserRejection e = true -> getErrorMessage e = msgAuthorize)
  /\ getErrorMessage UserRejectedRequestErrorInjected = msgAuthorize
  /\ getErrorMessage UserRejectedRequestErrorWalletConnect = msgAuthorize
  /\ getErrorMessage UserRejectedRequestErrorFrame = msgAuthorize
  /\ (forall e : Error, getErrorMessage e ∈ fixedMessages)
  /\ NoDup fixedMessages.
Proof.
  split; [ | repeat split; try reflexivity ].
  - intros e He. apply isUserRejection_cases in He.
    destruct He as [-> | [-> | ->]]; reflexivity.
  - intros e. unfold fixedMessages. destruct e; cbn; rewrite !elem_of_cons; tauto.
  - exact fixedMessages_NoDup.
Qed.

Lemma getErrorMessage_user_rejection_witness :
  isUserRejection UserRejectedRequestErrorFrame = true
  /\ getErrorMessage UserRejectedRequestErrorFrame = msgAuthorize.
Proof.
  split; [ reflexivity | ].
  apply (proj1 getErrorMessage_user_rejection). reflexivity.
Defined.

End ErrorsFacts.

(** ** Connector buttons *)

Module WalletFacts.
Import Wallet.

Section ConnectorFacts.
Context {Connector : Type} `{EqDecision Connector}.
Variable connectorsByName : ConnectorNames -> Connector.

Lemma same_ref_true (a : Connector) (b : option Connector) :
  same_ref a b = true <-> b = Some a.
Proof. unfold same_ref. apply bool_decide_eq_true. Qed.

Lemma is_Some'_true {A} (o : option A) :
  is_Some' o = true <-> exists x, o = Some x.
Proof.
  destruct o; cbn; split; eauto; try discriminate.
  intros [x Hx]; discriminate.
Qed.

(** C6: the button of a registry entry is disabled exactly when the eager
    attempt has not completed, or a connector is being activated, or the
    entry's connector is the active one, or the context holds an error. *)
Theorem connector_button_disabled_iff (triedEager : bool)
    (activatingConnector : option Connector) (ctx : Web3Context Connector)
    (name : ConnectorNames) :
  disabled (connectorButton connectorsByName triedEager activatingConnector
              ctx name) = true
  <-> (triedEager = false
       \/ (exists c, activatingConnector = Some c)
       \/ connector ctx = Some (connectorsByName name)
       \/ (exists e, error ctx = Some e)).
Proof.
  cbn. rewrite !orb_true_iff, negb_true_iff, same_ref_true, !is_Some'_true.
  tauto.
Qed.

Lemma activatingEffect_not_active (m conn : option Connector) (a : Connector) :
  activatingEffect m conn = Some a -> m = Some a /\ conn <> Some a.
Proof.
  unfold activatingEffect. destruct m as [b | ]; [ | discriminate ].
  destruct (same_ref b conn) eqn:E; [ discriminate | ].
  intros [= ->]. split; [ reflexivity | ].
  intros Hc. apply same_ref_true in Hc. congruence.
Qed.

Lemma appStep_settled (s : AppState Connector) (e : AppEvent Connector)
    (a : Connector) :
  activatingConnector (appStep connectorsByName s e) = Some a ->
  connector (context (appStep connectorsByName s e)) <> Some a.
Proof.
  unfold appStep, runEffect; cbn. intros Hm.
  apply activatingEffect_not_active in Hm. tauto.
Qed.

Lemma appRun_settled (ctx : Web3Context Connector)
    (events : list (AppEvent Connector)) (a : Connector) :
  activatingConnector (appRun connectorsByName ctx events) = Some a ->
  connector (context (appRun connectorsByName ctx events)) <> Some a.
Proof.
  unfold appRun.
  induction events as [ | e events IH] using rev_ind.
  - cbn. discriminate.
  - rewrite fold_left_app. cbn [fold_left]. apply appStep_settled.
Qed.

(** C8: the marker is a single optional reference; the effect clears it
    when it is the active connector of the context, and after any
    sequence of clicks and context changes a marker that is still set
    is not the active connector. *)
Theorem activating_marker_cleared :
  (forall a : Connector, activatingEffect (Some a) (Some a) = None)
  /\ (forall (m conn : option Connector) (a : Connector),
        activatingEffect m conn = Some a -> m = Some a /\ conn <> Some a)
  /\ (forall (ctx : Web3Context Connector)
             (events : list (AppEvent Connector)) (a : Connector),
        activatingConnector (appRun connectorsByName ctx events) = Some a ->
        connector (context (appRun connectorsByName ctx events)) <> Some a).
Proof.
  split; [ | split ].
  - intros a. unfold activatingEffect, same_ref.
    rewrite bool_decide_eq_true_2; reflexivity.
  - exact activatingEffect_not_active.
  - exact appRun_settled.
Qed.

End ConnectorFacts.

Lemma connector_button_disabled_iff_witness :
  disabled (connectorButton sampleRegistry true None (connectedTo 0) Injected)
  = true.
Proof.
  apply (proj2 (connector_button_disabled_iff sampleRegistry true None
                  (connectedTo 0) Injected)).
  right; right; left. reflexivity.
Defined.

Lemma activating_marker_cleared_witness :
  activatingConnector
    (appRun sampleRegistry disconnected [EagerTried; Click Frame]) = Some 7
  /\ connector (context
       (appRun sampleRegistry disconnected [EagerTried; Click Frame])) <> Some 7
  /\ activatingConnector
       (appRun sampleRegistry disconnected
          [EagerTried; Click Frame; ContextChange (connectedTo 7)]) = None.
Proof.
  split; [ reflexivity | split; [ | reflexivity ] ].
  apply (proj2 (proj2 (activating_marker_cleared sampleRegistry))).
  reflexivity.
Defined.

End WalletFacts.

(** ** Checked sets, the Stake button, the guard of the panel *)

Module StakingFacts.
Import Staking.

Lemma uncheck_not_In (n : N) (l : list N) : ~ In n (uncheck n l).
Proof.
  unfold uncheck. rewrite filter_In, negb_true_iff, N.eqb_neq. tauto.
Qed.

Lemma uncheck_id_iff (n : N) (l : list N) : uncheck n l = l <-> ~ In n l.
Proof.
  split.
  - intros <-. apply uncheck_not_In.
  - unfold uncheck. induction l as [ | x l IH]; cbn; [ reflexivity | ].
    intros Hn. destruct (N.eqb_spec x n) as [-> | Hx]; cbn.
    + tauto.
    + f_equal. apply IH. tauto.
Qed.

Lemma uncheck_check (n : N) (l : list N) : uncheck n (check n l) = uncheck n l.
Proof. unfold uncheck, check. cbn. rewrite N.eqb_refl. reflexivity. Qed.

Lemma count_occ_uncheck (n m : N) (l : list N) :
  count_occ N.eq_dec (uncheck n l) m
  = if N.eq_dec m n then 0 else count_occ N.eq_dec l m.
Proof.
  destruct (N.eq_dec m n) as [-> | Hmn].
  - apply count_occ_not_In, uncheck_not_In.
  - unfold uncheck. induction l as [ | x l IH]; cbn; [ reflexivity | ].
    destruct (N.eqb_spec x n) as [-> | Hx]; cbn.
    + destruct (N.eq_dec n m); [ congruence | exact IH ].
    + destruct (N.eq_dec x m); rewrite IH; reflexivity.
Qed.

(** C5, as the code has it: checking then unchecking a token restores the
    checked set exactly when the token was not in it before. *)
Theorem check_uncheck_restores_iff (n : N) (l : list N) :
  onChange false n (onChange true n l) = l <-> ~ In n l.
Proof. unfold onChange. rewrite uncheck_check. apply uncheck_id_iff. Qed.

Lemma check_uncheck_restores_iff_witness :
  ~ In 7%N [5%N; 3%N]
  /\ onChange false 7 (onChange true 7 [5%N; 3%N]) = [5%N; 3%N].
Proof.
  assert (H : ~ In 7%N [5%N; 3%N]).
  { cbn. intros [H | [H | []]]; discriminate. }
  split; [ exact H | ].
  exact (proj2 (check_uncheck_restores_iff 7 [5%N; 3%N]) H).
Defined.

(** C5, as stated, fails: with token 5 already in the checked set, checking
    it and unchecking it leaves the empty set, not the prior one. *)
Lemma check_uncheck_not_restoring :
  onChange false 5 (onChange true 5 [5%N]) = []
  /\ ~ (forall (n : N) (l : list N),
          onChange false n (onChange true n l) = l).
Proof.
  split; [ reflexivity | ].
  intros H. specialize (H 5%N [5%N]). discriminate H.
Qed.

(** C10: unchecking removes every occurrence of the token and keeps the
    other entries; checking puts the token in front without looking for
    it, so a token already present is then there once more. *)
Theorem uncheck_removes_all_check_prepends (n : N) (l : list N) :
  ~ In n (onChange false n l)
  /\ (forall m, count_occ N.eq_dec (onChange false n l) m
                = if N.eq_dec m n then 0 else count_occ N.eq_dec l m)
  /\ onChange true n l = n :: l
  /\ count_occ N.eq_dec (onChange true n l) n = S (count_occ N.eq_dec l n)
  /\ (In n l -> 2 <= count_occ N.eq_dec (onChange true n l) n).
Proof.
  unfold onChange. repeat split.
  - apply uncheck_not_In.
  - intros m. apply count_occ_uncheck.
  - unfold check. apply count_occ_cons_eq. reflexivity.
  - intros Hn. unfold check. rewrite count_occ_cons_eq by reflexivity.
    apply (count_occ_In N.eq_dec) in Hn. lia.
Qed.

Lemma uncheck_removes_all_check_prepends_witness :
  In 5%N [3%N; 5%N]
  /\ 2 <= count_occ N.eq_dec (onChange true 5 [3%N; 5%N]) 5%N.
Proof.
  assert (H : In 5%N [3%N; 5%N]) by (cbn; auto).
  split; [ exact H | ].
  exact (proj2 (proj2 (proj2 (proj2
           (uncheck_removes_all_check_prepends 5 [3%N; 5%N])))) H).
Defined.

Lemma stakeButtonDisabled_true (cs ss : list N) :
  stakeButtonDisabled cs ss = true
  <-> (length cs <> length ss \/ cs = [] \/ ss = []).
Proof.
  unfold stakeButtonDisabled.
  rewrite !orb_true_iff, negb_true_iff, Nat.eqb_neq, !Nat.eqb_eq.
  rewrite !length_zero_iff_nil. tauto.
Qed.

Lemma Interact_rendered (props : Props) (st : State) (panel : Panel) :
  Interact props st = Some panel ->
  (exists acct, account props = Some acct)
  /\ stakeDisabled panel
     = stakeButtonDisabled (checkedCraniums st) (checkedStallions st).
Proof.
  unfold Interact.
  destruct (is_Some' (library props) && truthy_string (account props)) eqn:E;
    [ | discriminate ].
  intros [= <-]. cbn. split; [ | reflexivity ].
  apply andb_true_iff in E. destruct E as [_ E].
  destruct (account props); [ eauto | discriminate ].
Qed.

(** C1: the Stake button is disabled exactly when the two checked sets
    differ in size or one of them is empty, (0,0) included, and enabled
    otherwise; a click on the enabled button calls [stake] with the two
    checked sequences. *)
Theorem stake_button_disabled_iff (props : Props) (st : State) (panel : Panel) :
  Interact props st = Some panel ->
  (stakeDisabled panel = true
   <-> (length (checkedCraniums st) <> length (checkedStallions st)
        \/ checkedCraniums st = [] \/ checkedStallions st = []))
  /\ (stakeDisabled panel = false
      <-> (length (checkedCraniums st) = length (checkedStallions st)
           /\ checkedCraniums st <> [] /\ checkedStallions st <> []))
  /\ stakeButtonDisabled [] [] = true
  /\ (stakeDisabled panel = false ->
      click StakeButton props st
      = [Stake (checkedCraniums st) (checkedStallions st)])
  /\ (stakeDisabled panel = true -> click StakeButton props st = []).
Proof.
  intros Hr. destruct (Interact_rendered _ _ _ Hr) as [[acct Ha] Hd].
  assert (Ht := stakeButtonDisabled_true (checkedCraniums st)
                  (checkedStallions st)).
  rewrite <- Hd in Ht.
  split; [ exact Ht | split; [ | split; [ reflexivity | ] ] ].
  - rewrite <- not_true_iff_false, Ht.
    destruct (Nat.eq_dec (length (checkedCraniums st))
                (length (checkedStallions st)));
      destruct (checkedCraniums st), (checkedStallions st);
      cbn in *; intuition congruence.
  - unfold click. rewrite Hr, Ha. split; intros ->; reflexivity.
Qed.

(** C9: without a provider library or without an account the component
    renders nothing, and then no control issues a call. *)
Theorem panel_hidden_without_connection (props : Props) (st : State) :
  library props = None \/ account props = None ->
  Interact props st = None
  /\ (forall ctl, click ctl props st = []).
Proof.
  intros H.
  assert (Hn : Interact props st = None).
  { unfold Interact. destruct H as [-> | ->]; cbn;
      rewrite ?andb_false_r; reflexivity. }
  split; [ exact Hn | ].
  intros ctl. unfold click. rewrite Hn. reflexivity.
Qed.

Lemma stake_button_disabled_iff_witness :
  exists panel,
    Interact connectedProps pairedState = Some panel
    /\ stakeDisabled panel = false
    /\ click StakeButton connectedProps pairedState = [Stake [40%N] [9%N]].
Proof.
  eexists. split; [ reflexivity | ]. split; [ reflexivity | ].
  apply (proj1 (proj2 (proj2 (proj2
           (stake_button_disabled_iff connectedProps pairedState _ eq_refl))))).
  reflexivity.
Defined.

Lemma panel_hidden_without_connection_witness :
  Interact accountlessProps pairedState = None
  /\ click StakeButton accountlessProps pairedState = [].
Proof.
  destruct (panel_hidden_without_connection accountlessProps pairedState
              (or_intror eq_refl)) as [Hn Hc].
  split; [ exact Hn | exact (Hc StakeButton) ].
Defined.

End StakingFacts.

(** ** The Fetch handler *)

Module FetchFacts.
Import Staking Fetch.

(** *** Views of a trace *)

Lemma lookupIndices_app (c : Collection) (tr evs : list Event) :
  lookupIndices c (tr ++ evs) = lookupIndices c tr ++ lookupIndices c evs.
Proof. apply omap_app. Qed.

Lemma setterCalls_app (c : Collection) (tr evs : list Event) :
  setterCalls c (tr ++ evs) = setterCalls c tr ++ setterCalls c evs.
Proof. apply omap_app. Qed.

Lemma alerts_app (tr evs : list Event) :
  alerts (tr ++ evs) = alerts tr ++ alerts evs.
Proof. apply omap_app. Qed.

Lemma tokenCalls_seq (c : Collection) (account : string) (n : nat) :
  tokenCalls c account (replicate n tt)
  = (fun i => EvCall (TokenOfOwnerByIndex c account i)) <$> seq 0 n.
Proof.
  unfold tokenCalls.
  rewrite (imap_seq_0 (replicate n tt)
             (fun i => EvCall (TokenOfOwnerByIndex c account i))).
  rewrite length_replicate. reflexivity.
Qed.

Lemma lookupIndices_calls (c c' : Collection) (account : string)
    (l : list nat) :
  lookupIndices c
    ((fun i => EvCall (TokenOfOwnerByIndex c' account i)) <$> l)
  = if decide (c' = c) then l else [].
Proof.
  unfold lookupIndices.
  induction l as [ | i l IH]; cbn; [ destruct (decide (c' = c)); reflexivity | ].
  fold (lookupIndices c) in *.
  destruct (decide (c' = c)); cbn; rewrite IH; reflexivity.
Qed.

Lemma lookupIndices_tokenCalls (c c' : Collection) (account : string)
    (n : nat) :
  lookupIndices c (tokenCalls c' account (replicate n tt))
  = if decide (c' = c) then seq 0 n else [].
Proof. rewrite tokenCalls_seq. apply lookupIndices_calls. Qed.

Lemma setterCalls_tokenCalls (c c' : Collection) (account : string) (n : nat) :
  setterCalls c (tokenCalls c' account (replicate n tt)) = [].
Proof.
  rewrite tokenCalls_seq. generalize (seq 0 n). intros l.
  induction l as [ | i l IH]; cbn; [ reflexivity | exact IH ].
Qed.

Lemma alerts_tokenCalls (c : Collection) (account : string) (n : nat) :
  alerts (tokenCalls c account (replicate n tt)) = [].
Proof.
  rewrite tokenCalls_seq. generalize (seq 0 n). intros l.
  induction l as [ | i l IH]; cbn; [ reflexivity | exact IH ].
Qed.

(** *** [Promise.all] over the lookups *)

Lemma allFulfilled_Some (l : list (Promise N)) (vs : list N) :
  allFulfilled l = Some vs <-> l = (fun v => Some (Fulfilled v)) <$> vs.
Proof.
  revert vs. induction l as [ | p l IH]; intros vs; cbn.
  - split; [ intros [= <-]; reflexivity | ].
    destruct vs; [ reflexivity | discriminate ].
  - destruct p as [[v | e] | ].
    + destruct (allFulfilled l) as [ws | ] eqn:E.
      * split.
        -- intros [= <-]. cbn. f_equal. apply IH. reflexivity.
        -- destruct vs as [ | w vs]; [ discriminate | ].
           cbn. intros [= -> Hl]. apply IH in Hl. congruence.
      * split; [ discriminate | ].
        destruct vs as [ | w vs]; [ discriminate | ].
        cbn. intros [= -> Hl]. apply IH in Hl. discriminate.
    + split; [ discriminate | destruct vs; discriminate ].
    + split; [ discriminate | destruct vs; discriminate ].
Qed.

Lemma allFulfilled_values (vs : list N) :
  allFulfilled ((fun v => Some (Fulfilled v)) <$> vs) = Some vs.
Proof. apply allFulfilled_Some. reflexivity. Qed.

Lemma allFulfilled_pending (l : list (Promise N)) (i : nat) :
  l !! i = Some None -> allFulfilled l = None.
Proof.
  revert i. induction l as [ | p l IH]; intros [ | i]; cbn; try discriminate.
  - intros [= ->]. reflexivity.
  - intros Hi. rewrite (IH _ Hi). destruct p as [[v | e] | ]; reflexivity.
Qed.

Lemma allFulfilled_rejected (l : list (Promise N)) (i : nat) (e : Reason) :
  l !! i = Some (Some (Rejected e)) -> allFulfilled l = None.
Proof.
  revert i. induction l as [ | p l IH]; intros [ | i]; cbn; try discriminate.
  - intros [= ->]. reflexivity.
  - intros Hi. rewrite (IH _ Hi). destruct p as [[v | e'] | ]; reflexivity.
Qed.

Lemma allFulfilled_replicate (n : nat) :
  allFulfilled (replicate n None) = if decide (n = 0) then Some [] else None.
Proof. destruct n; reflexivity. Qed.

Lemma allFulfilled_length (l : list (Promise N)) (vs : list N) :
  allFulfilled l = Some vs -> length vs = length l.
Proof.
  intros H. apply allFulfilled_Some in H. subst l.
  rewrite length_fmap. reflexivity.
Qed.

(** *** The invariant of the runs *)

Lemma pick_put {A} (c c' : Collection) (x : A) (p : Both A) :
  pick c' (put c x p) = if decide (c = c') then x else pick c' p.
Proof. destruct c, c'; reflexivity. Qed.

Lemma owned_setOwned (c c' : Collection) (ids : list N) (st : State) :
  owned c' (setOwned c ids st) = if decide (c = c') then ids else owned c' st.
Proof. destruct c, c'; reflexivity. Qed.

Lemma checked_setOwned (c c' : Collection) (ids : list N) (st : State) :
  checked c' (setOwned c ids st) = checked c' st.
Proof. destruct c, c'; reflexivity. Qed.

Ltac simpl_state :=
  cbn [acct balances chain lookups ui trace emit withBalance withChain
       withLookups setBalance catchFetch issueLookups] in *.

Lemma lookupIndices_settle c call o : lookupIndices c [EvSettle call o] = [].
Proof. reflexivity. Qed.
Lemma lookupIndices_set c c' ids : lookupIndices c [EvSet c' ids] = [].
Proof. reflexivity. Qed.
Lemma alerts_settle call o : alerts [EvSettle call o] = [].
Proof. reflexivity. Qed.
Lemma alerts_set c' ids : alerts [EvSet c' ids] = [].
Proof. reflexivity. Qed.
Lemma setterCalls_settle c call o : setterCalls c [EvSettle call o] = [].
Proof. reflexivity. Qed.
Lemma setterCalls_set c c' ids :
  setterCalls c [EvSet c' ids] = if decide (c' = c) then [ids] else [].
Proof. unfold setterCalls. cbn. destruct (decide (c' = c)); reflexivity. Qed.

Create Rewrite HintDb views.
#[local] Hint Rewrite lookupIndices_app setterCalls_app alerts_app
  lookupIndices_settle lookupIndices_set alerts_settle alerts_set
  setterCalls_settle setterCalls_set app_nil_r : views.

Lemma length_pending (a : list unit) :
  length ((fun _ => None : Promise N) <$> a) = length a.
Proof. apply length_fmap. Qed.

Lemma issueLookups_replicate (c : Collection) (n : nat) (s : FetchState) :
  issueLookups c (replicate n tt) s
  = emit (tokenCalls c (acct s) (replicate n tt))
         (withLookups c (replicate n None) s).
Proof. unfold issueLookups. rewrite fmap_replicate. reflexivity. Qed.

Section WithEngine.
Variable engine : Engine.

(** *** What [Array] and [apply] let through *)

Lemma undefineds_Some (n : nat) (a : list unit) :
  undefineds engine n = Some a <->
  n <= maxArguments engine /\ a = replicate n tt.
Proof.
  unfold undefineds. destruct (Nat.leb_spec n (maxArguments engine)).
  - split; [ intros [= <-]; auto | intros [_ ->]; reflexivity ].
  - split; [ discriminate | intros [Hle _]; lia ].
Qed.

Lemma Number_exact (v : N) : (v < 2 ^ 53)%N -> Number v = v.
Proof.
  intros Hv. unfold Number. apply N.ltb_lt in Hv. rewrite Hv. reflexivity.
Qed.

Lemma arrayLength_Number (b : N) :
  (b < 2 ^ 32)%N -> arrayLength (Number b) = Some (N.to_nat b).
Proof.
  intros Hb. rewrite Number_exact.
  - unfold arrayLength. apply N.ltb_lt in Hb. rewrite Hb. reflexivity.
  - eapply N.lt_trans; [ exact Hb | reflexivity ].
Qed.

Lemma arrayLength_too_long (b : N) :
  (2 ^ 32 <= b)%N -> arrayLength (Number b) = None.
Proof.
  intros Hb. unfold arrayLength.
  enough (H : (2 ^ 32 <= Number b)%N).
  { apply N.ltb_ge in H. rewrite H. reflexivity. }
  unfold Number. destruct (N.ltb_spec b (2 ^ 53)) as [Hlt | Hge];
    [ exact Hb | ].
  set (k := (N.log2 b - 52)%N).
  set (q := N.shiftr b k).
  assert (Hlog : (53 <= N.log2 b)%N).
  { change 53%N with (N.log2 (2 ^ 53)). apply N.log2_le_mono. exact Hge. }
  assert (Hq : (2 ^ 52 <= q)%N).
  { subst q. rewrite N.shiftr_div_pow2.
    apply N.div_le_lower_bound; [ apply N.pow_nonzero; discriminate | ].
    rewrite <- N.pow_add_r. subst k.
    replace (N.log2 b - 52 + 52)%N with (N.log2 b) by lia.
    apply N.log2_spec. lia. }
  match goal with |- (_ <= N.shiftl ?x k)%N => assert (Hx : (q <= x)%N) end.
  { destruct (_ || _); lia. }
  rewrite N.shiftl_mul_pow2.
  assert (Hk : (1 <= 2 ^ k)%N).
  { assert (2 ^ k <> 0)%N by (apply N.pow_nonzero; discriminate). lia. }
  etransitivity; [ | apply N.mul_le_mono; eassumption || (etransitivity; eassumption) ].
  cbn. lia.
Qed.

Lemma lookupCount_usable (b : N) :
  usableBalance engine b -> lookupCount engine b = Some (N.to_nat b).
Proof.
  intros [Hb Hmax]. unfold lookupCount. rewrite (arrayLength_Number b Hb).
  unfold undefineds. apply Nat.leb_le in Hmax. rewrite Hmax.
  rewrite length_replicate. reflexivity.
Qed.

Lemma lookupCount_too_long (b : N) :
  (2 ^ 32 <= b)%N -> lookupCount engine b = None.
Proof.
  intros Hb. unfold lookupCount. rewrite (arrayLength_too_long b Hb).
  reflexivity.
Qed.

Lemma lookupCount_too_many (b : N) :
  maxArguments engine < N.to_nat b -> lookupCount engine b = None.
Proof.
  intros Hmax. destruct (N.lt_ge_cases b (2 ^ 32)) as [Hb | Hb].
  - unfold lookupCount. rewrite (arrayLength_Number b Hb).
    unfold undefineds. apply Nat.leb_gt in Hmax. rewrite Hmax. reflexivity.
  - apply lookupCount_too_long, Hb.
Qed.

(** The three ways through the callback. *)
Lemma thenBalances_cases (cb sb : N) (s : FetchState) :
  match lookupCount engine cb, lookupCount engine sb with
  | None, _ => exists e, thenBalances engine cb sb s = catchFetch e s
  | Some nc, None =>
      exists e,
        thenBalances engine cb sb s
        = catchFetch e (issueLookups Cranium (replicate nc tt) s)
  | Some nc, Some ns =>
      thenBalances engine cb sb s
      = whenAllFulfilled Stallion
          (whenAllFulfilled Cranium
             (withChain LookupsIssued
                (issueLookups Stallion (replicate ns tt)
                   (issueLookups Cranium (replicate nc tt) s))))
  end.
Proof.
  unfold thenBalances, lookupCount, undefineds.
  destruct (arrayLength (Number cb)) as [nc | ]; [ | eauto ].
  destruct (nc <=? maxArguments engine)%nat; [ | eauto ].
  rewrite length_replicate.
  destruct (arrayLength (Number sb)) as [ns | ]; [ | eauto ].
  destruct (ns <=? maxArguments engine)%nat; [ | eauto ].
  rewrite length_replicate. reflexivity.
Qed.

Lemma Inv_clickFetch (account : string) (st0 : State) :
  Inv engine account st0 (clickFetch account st0).
Proof.
  split; cbn.
  - reflexivity.
  - reflexivity.
  - intros c. destruct c; reflexivity.
  - repeat split; try reflexivity.
    + intros c e. destruct c; discriminate.
    + exists Cranium. reflexivity.
Qed.


Lemma Inv_settleLookup (account : string) (st0 : State) (s s' : FetchState)
    (c : Collection) (i : nat) (o : Settled N) :
  Inv engine account st0 s -> settleLookup c i o s = Some s' -> Inv engine account st0 s'.
Proof.
  intros [Ha Hchk Hcalls Hch]. unfold settleLookup.
  destruct (pick c (lookups s) !! i) as [[? | ] | ] eqn:Hi; try discriminate.
  intros [= <-]. simpl_state.
  destruct (chain s) eqn:Hc.
  - destruct Hch as (Hl & _). rewrite Hl in Hi. destruct c; discriminate.
  - unfold whenAllFulfilled. simpl_state.
    rewrite pick_put, decide_True by reflexivity.
    destruct Hch as (Hal & cb & sb & Hb & Hlc & Hls & Hset).
    assert (Hpend := allFulfilled_pending _ _ Hi).
    destruct (allFulfilled (<[i:=Some o]> (pick c (lookups s)))) as [vs | ] eqn:Hall.
    + split; simpl_state.
      * exact Ha.
      * intros c'. rewrite checked_setOwned. apply Hchk.
      * intros c'. rewrite !lookupIndices_app, ?app_nil_r.
        rewrite pick_put. destruct (decide (c = c')) as [<- | ];
          [ rewrite length_insert | ]; apply Hcalls.
      * rewrite Hc. split.
        -- rewrite !alerts_app, ?app_nil_r. exact Hal.
        -- exists cb, sb. split; [ exact Hb | ].
           split; [ | split ].
           ++ destruct c; cbn; rewrite ?length_insert; assumption.
           ++ destruct c; cbn; rewrite ?length_insert; assumption.
           ++ intros c'. rewrite pick_put, owned_setOwned.
              rewrite !setterCalls_app.
              destruct (decide (c = c')) as [<- | Hne].
              ** rewrite Hall. specialize (Hset c). rewrite Hpend in Hset.
                 destruct Hset as [_ ->]. cbn.
                 rewrite decide_True by reflexivity. split; reflexivity.
              ** specialize (Hset c'). cbn. rewrite decide_False by exact Hne.
                 rewrite !app_nil_r. exact Hset.
    + split; simpl_state.
      * exact Ha.
      * exact Hchk.
      * intros c'. rewrite !lookupIndices_app, ?app_nil_r.
        rewrite pick_put. destruct (decide (c = c')) as [<- | ];
          [ rewrite length_insert | ]; apply Hcalls.
      * rewrite Hc. split.
        -- rewrite !alerts_app, ?app_nil_r. exact Hal.
        -- exists cb, sb. split; [ exact Hb | ].
           split; [ | split ].
           ++ destruct c; cbn; rewrite ?length_insert; assumption.
           ++ destruct c; cbn; rewrite ?length_insert; assumption.
           ++ intros c'. rewrite pick_put, !setterCalls_app. cbn.
              rewrite app_nil_r.
              destruct (decide (c = c')) as [<- | Hne].
              ** rewrite Hall. specialize (Hset c). rewrite Hpend in Hset.
                 exact Hset.
              ** apply Hset.
  - destruct Hch as (Hui & Hal & Hset & Hwhy).
    split; simpl_state.
    + exact Ha.
    + exact Hchk.
    + intros c'. rewrite !lookupIndices_app, ?app_nil_r.
      rewrite pick_put. destruct (decide (c = c')) as [<- | ];
        [ rewrite length_insert | ]; apply Hcalls.
    + rewrite Hc. repeat split.
      * exact Hui.
      * rewrite alerts_app, ?app_nil_r. exact Hal.
      * intros c'. rewrite setterCalls_app, ?app_nil_r. apply Hset.
      * destruct Hwhy as [Hrej | (cb & sb & Hb & Hiss)]; [ left; exact Hrej | ].
        right. exists cb, sb. split; [ exact Hb | ].
        unfold issuedBeforeThrow in *.
        destruct (lookupCount engine cb) as [nc | ].
        -- destruct Hiss as (Hns & Hlc & Hls). split; [ exact Hns | ].
           destruct c; cbn [put pick ofCranium ofStallion] in *.
           ++ rewrite length_insert. split; assumption.
           ++ rewrite Hls in Hi. discriminate.
        -- rewrite Hiss in Hi. destruct c; discriminate.
Qed.

Lemma lookupIndices_alert c e a : lookupIndices c [EvLog e; EvAlert a] = [].
Proof. reflexivity. Qed.
Lemma setterCalls_alert c e a : setterCalls c [EvLog e; EvAlert a] = [].
Proof. reflexivity. Qed.
Lemma alerts_alert e a : alerts [EvLog e; EvAlert a] = [a].
Proof. reflexivity. Qed.

Lemma Inv_catchFetch (account : string) (st0 : State) (s : FetchState)
    (e : Reason) :
  acct s = account ->
  (forall c, checked c (ui s) = checked c st0) ->
  (forall c, lookupIndices c (trace s) = seq 0 (length (pick c (lookups s)))) ->
  ui s = st0 ->
  alerts (trace s) = [] ->
  (forall c, setterCalls c (trace s) = []) ->
  ((exists c e', pick c (balances s) = Some (Rejected e'))
   \/ (exists cb sb,
         balances s = both (Some (Fulfilled cb)) (Some (Fulfilled sb))
         /\ issuedBeforeThrow engine cb sb (lookups s))) ->
  Inv engine account st0 (catchFetch e s).
Proof.
  intros Ha Hchk Hcalls Hui Hal Hset Hwhy. split; simpl_state.
  - exact Ha.
  - exact Hchk.
  - intros c. rewrite lookupIndices_app, lookupIndices_alert, app_nil_r.
    apply Hcalls.
  - split; [ exact Hui | split; [ | split; [ | exact Hwhy ] ] ].
    + rewrite alerts_app, alerts_alert, Hal. reflexivity.
    + intros c. rewrite setterCalls_app, setterCalls_alert, app_nil_r.
      apply Hset.
Qed.

Lemma Inv_thenBalances (account : string) (st0 : State) (s : FetchState)
    (cb sb : N) :
  acct s = account ->
  (forall c, checked c (ui s) = checked c st0) ->
  (forall c, lookupIndices c (trace s) = []) ->
  lookups s = both [] [] ->
  ui s = st0 ->
  alerts (trace s) = [] ->
  (forall c, setterCalls c (trace s) = []) ->
  balances s = both (Some (Fulfilled cb)) (Some (Fulfilled sb)) ->
  Inv engine account st0 (thenBalances engine cb sb s).
Proof.
  intros Ha Hchk Hcalls Hl Hui Hal Hset Hb.
  pose proof (thenBalances_cases cb sb s) as Hcases.
  destruct (lookupCount engine cb) as [nc | ] eqn:Hnc;
    [ destruct (lookupCount engine sb) as [ns | ] eqn:Hns | ].
  - rewrite Hcases, !issueLookups_replicate.
    unfold whenAllFulfilled. simpl_state. rewrite Hl.
    cbn [put pick ofCranium ofStallion]. rewrite allFulfilled_replicate.
    destruct (decide (nc = 0)) as [Hc0 | Hc0]; simpl_state; rewrite Hl;
      cbn [put pick ofCranium ofStallion]; rewrite allFulfilled_replicate;
      destruct (decide (ns = 0)) as [Hs0 | Hs0]; simpl_state;
      (split; simpl_state;
       [ exact Ha
       | intros c; rewrite ?checked_setOwned; apply Hchk
       | intros c; rewrite Hl; autorewrite with views;
         rewrite !lookupIndices_tokenCalls, Hcalls;
         destruct c; cbn; rewrite ?length_replicate, ?app_nil_r; reflexivity
       | ]).
    all: rewrite Hl; cbn [put pick ofCranium ofStallion];
      autorewrite with views; rewrite !alerts_tokenCalls, Hal;
      (split; [ reflexivity | ]); exists cb, sb;
      rewrite !length_replicate;
      (split; [ exact Hb | split; [ exact Hnc | split; [ exact Hns | ] ] ]).
    all: intros c; destruct c; cbn [pick ofCranium ofStallion];
      rewrite allFulfilled_replicate.
    all: repeat case_decide; try contradiction.
    all: autorewrite with views; rewrite !setterCalls_tokenCalls, !Hset;
      rewrite ?owned_setOwned, ?Hui; repeat case_decide; try congruence;
      split; reflexivity.
  - destruct Hcases as [e ->]. rewrite issueLookups_replicate.
    apply Inv_catchFetch; simpl_state; rewrite ?Hl; try assumption.
    + intros c. rewrite lookupIndices_app, lookupIndices_tokenCalls, Hcalls.
      destruct c; cbn; rewrite ?length_replicate; reflexivity.
    + rewrite alerts_app, alerts_tokenCalls, Hal. reflexivity.
    + intros c. rewrite setterCalls_app, setterCalls_tokenCalls, Hset.
      reflexivity.
    + right. exists cb, sb. split; [ exact Hb | ].
      unfold issuedBeforeThrow. rewrite Hnc.
      split; [ exact Hns | ]. cbn [put pick ofCranium ofStallion].
      rewrite length_replicate. split; reflexivity.
  - destruct Hcases as [e ->]. apply Inv_catchFetch; try assumption.
    + intros c. rewrite Hcalls, Hl. destruct c; reflexivity.
    + right. exists cb, sb. split; [ exact Hb | ].
      unfold issuedBeforeThrow. rewrite Hnc. exact Hl.
Qed.

Lemma Inv_settleBalance (account : string) (st0 : State) (s s' : FetchState)
    (c : Collection) (o : Settled N) :
  Inv engine account st0 s -> settleBalance engine c o s = Some s' -> Inv engine account st0 s'.
Proof.
  intros [Ha Hchk Hcalls Hch]. unfold settleBalance.
  destruct (pick c (balances s)) as [? | ] eqn:Hp; [ discriminate | ].
  intros [= <-]. simpl_state.
  destruct (chain s) eqn:Hc.
  - destruct Hch as (Hl & Hui & Hal & Hset & Hrej & Hpend).
    assert (Hcalls0 : forall c', lookupIndices c' (trace s) = []).
    { intros c'. rewrite Hcalls, Hl. destruct c'; reflexivity. }
    destruct o as [v | e].
    + destruct (balances s) as [bc bs] eqn:Hb.
      assert (Hstay :
        pick (other c) (both bc bs) = None ->
        Inv engine account st0
          (emit [EvSettle (BalanceOf c (acct s)) (Fulfilled v)]
             (withBalance c (Some (Fulfilled v)) s))).
      { intros Ho. split; simpl_state; rewrite ?Hc; try assumption.
        - intros c'. autorewrite with views. apply Hcalls.
        - repeat split; try assumption.
          + autorewrite with views. exact Hal.
          + intros c'. autorewrite with views. apply Hset.
          + intros c' e. specialize (Hrej c' e). rewrite Hb in *.
            destruct c, c'; cbn in *; congruence.
          + exists (other c). rewrite Hb.
            destruct c; cbn in *; assumption. }
      assert (Hthen : forall cb sb,
        put c (Some (Fulfilled v)) (both bc bs)
        = both (Some (Fulfilled cb)) (Some (Fulfilled sb)) ->
        Inv engine account st0
          (thenBalances engine cb sb
             (emit [EvSettle (BalanceOf c (acct s)) (Fulfilled v)]
                (withBalance c (Some (Fulfilled v)) s)))).
      { intros cb sb Hput. apply Inv_thenBalances; simpl_state;
          rewrite ?Hb; try assumption.
        - intros c'. autorewrite with views. apply Hcalls0.
        - autorewrite with views. exact Hal.
        - intros c'. autorewrite with views. apply Hset. }
      pose proof (Hrej Cranium) as HrC. pose proof (Hrej Stallion) as HrS.
      destruct c; cbn in Hp; subst; cbn [put ofCranium ofStallion] in *.
      * destruct bs as [[sb | e] | ].
        -- apply Hthen. reflexivity.
        -- exfalso. apply (HrS e). reflexivity.
        -- apply Hstay. reflexivity.
      * destruct bc as [[cb | e] | ].
        -- apply Hthen. reflexivity.
        -- exfalso. apply (HrC e). reflexivity.
        -- apply Hstay. reflexivity.
    + apply Inv_catchFetch; simpl_state; try assumption.
      * intros c'. autorewrite with views. apply Hcalls.
      * autorewrite with views. exact Hal.
      * intros c'. autorewrite with views. apply Hset.
      * left. exists c, e. destruct c, (balances s); reflexivity.
  - destruct Hch as (_ & cb & sb & Hb & _). rewrite Hb in Hp.
    destruct c; discriminate.
  - destruct Hch as (Hui & Hal & Hset & Hwhy).
    split; simpl_state; rewrite ?Hc; try assumption.
    + intros c'. autorewrite with views. apply Hcalls.
    + repeat split; try assumption.
      * autorewrite with views. exact Hal.
      * intros c'. autorewrite with views. apply Hset.
      * left. destruct Hwhy as [(c' & e & He) | (cb & sb & Hb & _)].
        -- exists c', e. destruct c, c', (balances s); cbn in *; congruence.
        -- rewrite Hb in Hp. destruct c; discriminate.
Qed.

Lemma Inv_step (account : string) (st0 : State) (a : Action)
    (s s' : FetchState) :
  Inv engine account st0 s -> step engine a s = Some s' -> Inv engine account st0 s'.
Proof.
  destruct a; cbn [step]; eauto using Inv_settleBalance, Inv_settleLookup.
Qed.

Lemma Inv_run (account : string) (st0 : State) (acts : list Action)
    (s s' : FetchState) :
  Inv engine account st0 s -> run engine acts s = Some s' -> Inv engine account st0 s'.
Proof.
  revert s. induction acts as [ | a acts IH]; intros s Hs; cbn.
  - intros [= <-]. exact Hs.
  - destruct (step engine a s) as [s1 | ] eqn:E; [ | discriminate ].
    apply IH. eapply Inv_step; eassumption.
Qed.

Lemma Inv_reachable (account : string) (st0 : State) (acts : list Action)
    (s : FetchState) :
  run engine acts (clickFetch account st0) = Some s -> Inv engine account st0 s.
Proof. apply Inv_run, Inv_clickFetch. Qed.

(** *** Balances before lookups *)

Lemma balancesBeforeLookups_quiet (account : string) (tr evs : list Event) :
  balancesBeforeLookups account tr ->
  Forall (fun ev => ~ isLookupCall ev) evs ->
  balancesBeforeLookups account (tr ++ evs).
Proof.
  intros Htr Hq pre post c owner i Heq c'.
  apply app_eq_inv in Heq.
  destruct Heq as [(k & Hk1 & Hk2) | (k & Hk1 & Hk2)].
  - destruct k as [ | ev k]; cbn in Hk2.
    + subst evs. apply Forall_inv in Hq.
      exfalso. apply Hq. exact I.
    + injection Hk2 as <- Hk2. eapply Htr. exact Hk1.
  - subst evs. apply Forall_app in Hq. destruct Hq as [_ Hq].
    apply Forall_inv in Hq.
    exfalso. apply Hq. exact I.
Qed.

Lemma balancesBeforeLookups_after (account : string) (tr evs : list Event) :
  balancesBeforeLookups account tr ->
  (forall c, exists v, EvSettle (BalanceOf c account) (Fulfilled v) ∈ tr) ->
  balancesBeforeLookups account (tr ++ evs).
Proof.
  intros Htr Hs pre post c owner i Heq c'.
  apply app_eq_inv in Heq.
  destruct Heq as [(k & Hk1 & Hk2) | (k & Hk1 & Hk2)].
  - destruct k as [ | ev k]; cbn in Hk2.
    + rewrite app_nil_r in Hk1. subst pre. apply Hs.
    + injection Hk2 as <- Hk2. eapply Htr. exact Hk1.
  - subst pre. destruct (Hs c') as [v Hv]. exists v.
    apply elem_of_app. left. exact Hv.
Qed.

Lemma whenAllFulfilled_extends (c : Collection) (s : FetchState) :
  acct (whenAllFulfilled c s) = acct s
  /\ balances (whenAllFulfilled c s) = balances s
  /\ exists evs, trace (whenAllFulfilled c s) = trace s ++ evs
                 /\ Forall (fun ev => ~ isLookupCall ev) evs.
Proof.
  unfold whenAllFulfilled.
  destruct (allFulfilled (pick c (lookups s))) as [vs | ]; simpl_state.
  - repeat split. eexists. split; [ reflexivity | ].
    repeat constructor. intros [].
  - repeat split. exists []. rewrite app_nil_r. split; constructor.
Qed.

Lemma thenBalances_extends (cb sb : N) (s : FetchState) :
  acct (thenBalances engine cb sb s) = acct s
  /\ balances (thenBalances engine cb sb s) = balances s
  /\ exists evs, trace (thenBalances engine cb sb s) = trace s ++ evs.
Proof.
  pose proof (thenBalances_cases cb sb s) as Hcases.
  destruct (lookupCount engine cb) as [nc | ];
    [ destruct (lookupCount engine sb) as [ns | ] | ].
  - rewrite Hcases.
    match goal with |- context [whenAllFulfilled Stallion ?s2] =>
      destruct (whenAllFulfilled_extends Stallion s2)
        as (-> & -> & evs2 & -> & _) end.
    match goal with |- context [whenAllFulfilled Cranium ?s2] =>
      destruct (whenAllFulfilled_extends Cranium s2)
        as (-> & -> & evs1 & -> & _) end.
    simpl_state. repeat split. rewrite <- !app_assoc. eexists. reflexivity.
  - destruct Hcases as [e ->].
    simpl_state. repeat split. rewrite <- !app_assoc. eexists. reflexivity.
  - destruct Hcases as [e ->].
    simpl_state. repeat split. eexists. reflexivity.
Qed.

Lemma Ordered_clickFetch (account : string) (st0 : State) :
  Ordered (clickFetch account st0).
Proof.
  split.
  - intros pre post c owner i Heq c'. exfalso. cbn in Heq.
    destruct pre as [ | ? [ | ? [ | ? [ | ? pre]]]]; cbn in Heq;
      discriminate.
  - intros c v. destruct c; discriminate.
Qed.

Lemma settleLookup_cases (c : Collection) (i : nat) (o : Settled N)
    (s s' : FetchState) :
  settleLookup c i o s = Some s' ->
  pick c (lookups s) !! i = Some None
  /\ (s' = afterLookup c i o s
      \/ (chain s = LookupsIssued
          /\ s' = whenAllFulfilled c (afterLookup c i o s))).
Proof.
  unfold settleLookup, afterLookup.
  destruct (pick c (lookups s) !! i) as [[? | ] | ]; try discriminate.
  intros [= <-]. split; [ reflexivity | ]. simpl_state.
  destruct (chain s); auto.
Qed.

Lemma settleBalance_cases (c : Collection) (o : Settled N)
    (s s' : FetchState) :
  settleBalance engine c o s = Some s' ->
  pick c (balances s) = None
  /\ (s' = afterBalance c o s
      \/ (exists e, o = Rejected e /\ chain s = AwaitingBalances
                    /\ s' = catchFetch e (afterBalance c o s))
      \/ (exists cb sb,
            balances (afterBalance c o s)
            = both (Some (Fulfilled cb)) (Some (Fulfilled sb))
            /\ chain s = AwaitingBalances
            /\ s' = thenBalances engine cb sb (afterBalance c o s))).
Proof.
  unfold settleBalance, afterBalance.
  destruct (pick c (balances s)) as [? | ] eqn:Hp; [ discriminate | ].
  intros [= <-]. split; [ reflexivity | ]. simpl_state.
  destruct (chain s); auto.
  destruct o as [v | e]; [ | right; left; eauto ].
  destruct (put c (Some (Fulfilled v)) (balances s)) as [bc bs] eqn:Hput.
  cbn [ofCranium ofStallion].
  destruct bc as [[cb | ?] | ]; auto.
  destruct bs as [[sb | ?] | ]; auto.
  right; right. eauto.

Qed.

Lemma Ordered_afterLookup (c : Collection) (i : nat) (o : Settled N)
    (s : FetchState) :
  Ordered s -> Ordered (afterLookup c i o s).
Proof.
  intros [Ho Hl]. split; unfold settlementsLogged, afterLookup; simpl_state.
  - apply balancesBeforeLookups_quiet; [ exact Ho | ].
    repeat constructor. intros [].
  - intros c' v Hv. apply elem_of_app. left. apply Hl. exact Hv.
Qed.

Lemma Ordered_afterBalance (c : Collection) (o : Settled N)
    (s : FetchState) :
  Ordered s -> pick c (balances s) = None -> Ordered (afterBalance c o s).
Proof.
  intros [Ho Hl] Hp.
  split; unfold settlementsLogged, afterBalance; simpl_state.
  - apply balancesBeforeLookups_quiet; [ exact Ho | ].
    repeat constructor. intros [].
  - intros c' v. rewrite pick_put. case_decide as Hcc.
    + subst c'. intros [= ->]. apply elem_of_app. right. constructor.
    + intros Hv. apply elem_of_app. left. apply Hl. exact Hv.
Qed.

Lemma Ordered_settleLookup (s s' : FetchState) (c : Collection) (i : nat)
    (o : Settled N) :
  Ordered s -> settleLookup c i o s = Some s' -> Ordered s'.
Proof.
  intros Hs Hstep. apply settleLookup_cases in Hstep.
  destruct Hstep as [_ [-> | [_ ->]]].
  - apply Ordered_afterLookup, Hs.
  - destruct (Ordered_afterLookup c i o s Hs) as [Ho1 Hl1].
    destruct (whenAllFulfilled_extends c (afterLookup c i o s))
      as (Ha & Hb & evs & Ht & Hq).
    split.
    + rewrite Ha, Ht. apply balancesBeforeLookups_quiet; assumption.
    + intros c' v. rewrite Ha, Hb, Ht. intros Hv.
      apply elem_of_app. left. apply Hl1. exact Hv.
Qed.

Lemma Ordered_settleBalance (s s' : FetchState) (c : Collection)
    (o : Settled N) :
  Ordered s -> settleBalance engine c o s = Some s' -> Ordered s'.
Proof.
  intros Hs Hstep. apply settleBalance_cases in Hstep.
  destruct Hstep as [Hp Hcases].
  pose proof (Ordered_afterBalance c o s Hs Hp) as [Ho1 Hl1].
  destruct Hcases as [-> | [(e & _ & _ & ->) | (cb & sb & Hbs & _ & ->)]].
  - split; assumption.
  - split; unfold settlementsLogged; simpl_state.
    + apply balancesBeforeLookups_quiet; [ exact Ho1 | ].
      repeat constructor; intros [].
    + intros c' v Hv. apply elem_of_app. left. apply Hl1. exact Hv.
  - destruct (thenBalances_extends cb sb (afterBalance c o s))
      as (Ha & Hb & evs & Ht).
    split.
    + rewrite Ha, Ht. apply balancesBeforeLookups_after; [ exact Ho1 | ].
      intros c'. destruct c'; eexists; apply Hl1; rewrite Hbs; reflexivity.
    + intros c' v'. rewrite Ha, Hb, Ht. intros Hv.
      apply elem_of_app. left. apply Hl1. exact Hv.
Qed.

Lemma Ordered_run (acts : list Action) (s s' : FetchState) :
  Ordered s -> run engine acts s = Some s' -> Ordered s'.
Proof.
  revert s. induction acts as [ | a acts IH]; intros s Hs; cbn.
  - intros [= <-]. exact Hs.
  - destruct (step engine a s) as [s1 | ] eqn:E; [ | discriminate ].
    apply IH. destruct a; cbn in E;
      eauto using Ordered_settleBalance, Ordered_settleLookup.
Qed.

(** *** Schedules *)

Lemma run_app (acts1 acts2 : list Action) (s : FetchState) :
  run engine (acts1 ++ acts2) s
  = match run engine acts1 s with Some s' => run engine acts2 s' | None => None end.
Proof.
  revert s. induction acts1 as [ | a acts1 IH]; intros s; cbn;
    [ reflexivity | ].
  destruct (step engine a s); [ apply IH | reflexivity ].
Qed.

Lemma put_pick {A} (c : Collection) (p : Both A) : put c (pick c p) p = p.
Proof. destruct c, p; reflexivity. Qed.

Lemma put_put {A} (c : Collection) (x y : A) (p : Both A) :
  put c x (put c y p) = put c x p.
Proof. destruct c, p; reflexivity. Qed.

Lemma run_fulfilFrom (c : Collection) (vs done : list N) (s : FetchState) :
  chain s = LookupsIssued ->
  pick c (lookups s) = fulfilled done ++ replicate (length vs) None ->
  exists s' evs,
    run engine (fulfilFrom c (length done) vs) s = Some s'
    /\ chain s' = LookupsIssued
    /\ acct s' = acct s
    /\ balances s' = balances s
    /\ lookups s' = put c (fulfilled (done ++ vs)) (lookups s)
    /\ trace s' = trace s ++ evs
    /\ Forall (fun ev => forall c' ids, ev = EvSet c' ids -> c' = c) evs
    /\ (vs <> [] ->
        ui s' = setOwned c (map Number (done ++ vs)) (ui s)
        /\ exists evs', evs = evs' ++ [EvSet c (map Number (done ++ vs))])
    /\ (vs = [] -> ui s' = ui s).
Proof.
  revert done s. induction vs as [ | v vs IH]; intros done s Hch Hl.
  - exists s, []. cbn. rewrite !app_nil_r in *. rewrite <- Hl, put_pick.
    repeat split; try reflexivity; try assumption; try constructor;
      congruence.
  - cbn [fulfilFrom run step]. unfold settleLookup.
    assert (Hi : pick c (lookups s) !! length done = Some None).
    { rewrite Hl. unfold fulfilled.
      rewrite lookup_app_r by (rewrite length_fmap; lia).
      rewrite length_fmap, Nat.sub_diag. reflexivity. }
    rewrite Hi. simpl_state. rewrite Hch.
    assert (Hins : <[length done := Some (Fulfilled v)]> (pick c (lookups s))
                   = fulfilled (done ++ [v]) ++ replicate (length vs) None).
    { rewrite Hl. unfold fulfilled.
      replace (length done) with (length ((fun v => Some (Fulfilled v)) <$> done) + 0)
        at 1 by (rewrite length_fmap; lia).
      rewrite insert_app_r. cbn. rewrite fmap_app, <- app_assoc. reflexivity. }
    unfold whenAllFulfilled. simpl_state. rewrite pick_put, decide_True by reflexivity.
    rewrite Hins.
    destruct vs as [ | v' vs].
    + cbn [length replicate]. rewrite app_nil_r.
      unfold fulfilled at 1. rewrite allFulfilled_values.
      eexists.
      exists [EvSettle (TokenOfOwnerByIndex c (acct s) (length done))
                (Fulfilled v);
              EvSet c (map Number (done ++ [v]))].
      cbn [fulfilFrom run]. split; [ reflexivity | ].
      simpl_state. rewrite <- app_assoc.
      split; [ exact Hch | ].
      do 4 (split; [ reflexivity | ]).
      split; [ | split ].
      * repeat (first [ apply List.Forall_nil | apply List.Forall_cons ]);
          intros c' ids Heq; inversion Heq; reflexivity.
      * intros _. split; [ reflexivity | ].
        eexists [_]. reflexivity.
      * discriminate.
    + rewrite (allFulfilled_pending _ (length (done ++ [v])))
        by (unfold fulfilled; rewrite lookup_app_r by (rewrite length_fmap; lia);
            rewrite length_fmap, Nat.sub_diag; reflexivity).
      set (s1 := emit _ _).
      destruct (IH (done ++ [v]) s1) as (s' & evs & Hrun & Hc' & Ha' & Hb' & Hl' & Ht' & Hev & Hui & _).
      { exact Hch. }
      { subst s1. simpl_state. rewrite pick_put, decide_True by reflexivity.
        reflexivity. }
      rewrite length_app in Hrun. cbn [length] in Hrun.
      rewrite Nat.add_1_r in Hrun.
      exists s'.
      exists (EvSettle (TokenOfOwnerByIndex c (acct s) (length done))
                (Fulfilled v) :: evs).
      split; [ exact Hrun | ].
      rewrite <- !app_assoc in *. cbn [app] in *.
      subst s1. simpl_state. rewrite put_put in Hl'.
      rewrite <- app_assoc in Ht'.
      destruct Hui as [Hui [evs' ->]]; [ discriminate | ].
      do 5 (split; [ assumption | ]).
      split; [ | split ].
      * constructor; [ discriminate | exact Hev ].
      * intros _. split; [ exact Hui | ].
        eexists (_ :: evs'). reflexivity.
      * discriminate.
Qed.

(** *** Where a run stands once both balances are fulfilled *)

Lemma issuedBeforeThrow_throws (cb sb : N) (l : Both (list (Promise N))) :
  issuedBeforeThrow engine cb sb l ->
  lookupCount engine cb = None \/ lookupCount engine sb = None.
Proof.
  unfold issuedBeforeThrow.
  destruct (lookupCount engine cb); [ intros (H & _); right; exact H | ].
  intros _. left. reflexivity.
Qed.

Lemma issued_when_balances_fulfilled (account : string) (st0 : State)
    (s : FetchState) (cb sb : N) :
  Inv engine account st0 s ->
  balances s = both (Some (Fulfilled cb)) (Some (Fulfilled sb)) ->
  usableBalance engine cb -> usableBalance engine sb ->
  chain s = LookupsIssued
  /\ length (ofCranium (lookups s)) = N.to_nat cb
  /\ length (ofStallion (lookups s)) = N.to_nat sb.
Proof.
  intros [_ _ _ Hch] Hb Hcb Hsb.
  apply lookupCount_usable in Hcb, Hsb.
  destruct (chain s).
  - destruct Hch as (_ & _ & _ & _ & _ & c & Hc). rewrite Hb in Hc.
    destruct c; discriminate.
  - destruct Hch as (_ & cb' & sb' & Hb' & Hlc & Hls & _).
    rewrite Hb in Hb'. injection Hb' as <- <-.
    split; [ reflexivity | ]. split; congruence.
  - destruct Hch as (_ & _ & _ & [(c & e & He) | (cb' & sb' & Hb' & Hbad)]).
    + rewrite Hb in He. destruct c; discriminate.
    + rewrite Hb in Hb'. injection Hb' as <- <-.
      apply issuedBeforeThrow_throws in Hbad. destruct Hbad; congruence.
Qed.

Lemma whenAllFulfilled_chain (c : Collection) (s : FetchState) :
  chain (whenAllFulfilled c s) = chain s.
Proof.
  unfold whenAllFulfilled.
  destruct (allFulfilled (pick c (lookups s))); reflexivity.
Qed.

Lemma whenAllFulfilled_lookups (c : Collection) (s : FetchState) :
  lookups (whenAllFulfilled c s) = lookups s.
Proof.
  unfold whenAllFulfilled.
  destruct (allFulfilled (pick c (lookups s))); reflexivity.
Qed.

Lemma whenAllFulfilled_balances (c : Collection) (s : FetchState) :
  balances (whenAllFulfilled c s) = balances s.
Proof.
  unfold whenAllFulfilled.
  destruct (allFulfilled (pick c (lookups s))); reflexivity.
Qed.

Lemma run_fulfilBalances (account : string) (st0 : State) (cb sb : N) :
  usableBalance engine cb -> usableBalance engine sb ->
  exists s,
    run engine (fulfilBalances cb sb) (clickFetch account st0) = Some s
    /\ chain s = LookupsIssued
    /\ balances s = both (Some (Fulfilled cb)) (Some (Fulfilled sb))
    /\ lookups s = both (replicate (N.to_nat cb) None)
                        (replicate (N.to_nat sb) None).
Proof.
  intros Hcb Hsb. apply lookupCount_usable in Hcb, Hsb.
  exists (thenBalances engine cb sb
            (afterBalance Stallion (Fulfilled sb)
               (afterBalance Cranium (Fulfilled cb)
                  (clickFetch account st0)))).
  split; [ reflexivity | ].
  match goal with |- context [thenBalances engine cb sb ?s0] =>
    pose proof (thenBalances_cases cb sb s0) as Hcases end.
  rewrite Hcb, Hsb in Hcases. rewrite Hcases, !issueLookups_replicate.
  rewrite !whenAllFulfilled_chain, !whenAllFulfilled_balances,
    !whenAllFulfilled_lookups.
  repeat split.
Qed.

(** Both collections fulfilled in index order, Cranium first or Stallion
    first. *)
Lemma run_fulfil_both (account : string) (st0 : State) (cb sb : N)
    (vc vs : list N) (first : Collection) :
  usableBalance engine cb -> usableBalance engine sb ->
  length vc = N.to_nat cb -> length vs = N.to_nat sb ->
  exists s,
    run engine (fulfilBalances cb sb
         ++ fulfilFrom first 0 (pick first (both vc vs))
         ++ fulfilFrom (other first) 0 (pick (other first) (both vc vs)))
        (clickFetch account st0) = Some s
    /\ balances s = both (Some (Fulfilled cb)) (Some (Fulfilled sb))
    /\ lookups s = both (fulfilled vc) (fulfilled vs)
    /\ (vc <> [] -> vs <> [] ->
        precedes (EvSet first (map Number (pick first (both vc vs))))
                 (EvSet (other first)
                    (map Number (pick (other first) (both vc vs))))
                 (trace s)).
Proof.
  intros Hcb Hsb Hvc Hvs.
  destruct (run_fulfilBalances account st0 cb sb Hcb Hsb)
    as (s0 & Hrun0 & Hch0 & Hb0 & Hl0).
  rewrite <- Hvc, <- Hvs in Hl0.
  destruct (run_fulfilFrom first (pick first (both vc vs)) [] s0)
    as (s1 & evs1 & Hrun1 & Hch1 & Ha1 & Hb1 & Hl1 & Ht1 & _ & Hui1 & _).
  { exact Hch0. }
  { rewrite Hl0. destruct first; reflexivity. }
  destruct (run_fulfilFrom (other first) (pick (other first) (both vc vs)) [] s1)
    as (s2 & evs2 & Hrun2 & Hch2 & Ha2 & Hb2 & Hl2 & Ht2 & _ & Hui2 & _).
  { exact Hch1. }
  { rewrite Hl1, Hl0. destruct first; reflexivity. }
  cbn [length] in *.
  exists s2. rewrite run_app, Hrun0. cbv beta iota.
  rewrite run_app, Hrun1. cbv beta iota. rewrite Hrun2.
  split; [ reflexivity | ].
  split; [ congruence | ].
  split.
  - rewrite Hl2, Hl1, Hl0. destruct first; reflexivity.
  - intros Hc Hs.
    destruct Hui1 as [_ [evs1' ->]]; [ destruct first; assumption | ].
    destruct Hui2 as [_ [evs2' ->]]; [ destruct first; assumption | ].
    exists (trace s0 ++ evs1'), evs2', [].
    rewrite Ht2, Ht1, <- !app_assoc. reflexivity.
Qed.

(** *** Failures *)

(** X20: a collection one of whose lookups is rejected is never set: its
    setter is not called and its owned ids stay the ones before the
    click, whatever the other lookups resolve to. *)
Lemma fetch_failed_collection_not_set (account : string) (st0 : State)
    (acts : list Action) (s : FetchState) (c : Collection) (i : nat)
    (e : Reason) :
  run engine acts (clickFetch account st0) = Some s ->
  pick c (lookups s) !! i = Some (Some (Rejected e)) ->
  setterCalls c (trace s) = [] /\ owned c (ui s) = owned c st0.
Proof.
  intros Hrun Hi. destruct (Inv_reachable _ _ _ _ Hrun) as [_ _ _ Hch].
  destruct (chain s).
  - destruct Hch as (Hl & _). rewrite Hl in Hi. destruct c; discriminate.
  - destruct Hch as (_ & cb & sb & _ & _ & _ & Hset). specialize (Hset c).
    rewrite (allFulfilled_rejected _ _ _ Hi) in Hset. tauto.
  - destruct Hch as (-> & _ & Hset & _). auto.
Qed.

(** X19: when a balance query is rejected Fetch raises exactly one alert
    and sets nothing, whatever the other query and the rest of the run
    do: the panel state stays the one before the click. *)
Lemma fetch_balance_rejection_alerts (account : string) (st0 : State)
    (acts : list Action) (s : FetchState) (c : Collection) (e : Reason) :
  run engine acts (clickFetch account st0) = Some s ->
  pick c (balances s) = Some (Rejected e) ->
  length (alerts (trace s)) = 1
  /\ ui s = st0
  /\ (forall c', setterCalls c' (trace s) = []).
Proof.
  intros Hrun Hb. destruct (Inv_reachable _ _ _ _ Hrun) as [_ _ _ Hch].
  destruct (chain s).
  - destruct Hch as (_ & _ & _ & _ & Hrej & _). destruct (Hrej _ _ Hb).
  - destruct Hch as (_ & cb & sb & Hbs & _). rewrite Hbs in Hb.
    destruct c; discriminate.
  - tauto.
Qed.

Lemma fetch_no_alert_after_balances (account : string) (st0 : State)
    (acts : list Action) (s : FetchState) (cb sb : N) :
  run engine acts (clickFetch account st0) = Some s ->
  balances s = both (Some (Fulfilled cb)) (Some (Fulfilled sb)) ->
  usableBalance engine cb -> usableBalance engine sb ->
  alerts (trace s) = [].
Proof.
  intros Hrun Hb Hcb Hsb. pose proof (Inv_reachable _ _ _ _ Hrun) as HI.
  destruct (issued_when_balances_fulfilled _ _ _ _ _ HI Hb Hcb Hsb)
    as (Hch & _).
  destruct HI as [_ _ _ HI]. rewrite Hch in HI. tauto.
Qed.

(** C2, on the code: the balance of Craniums is 1, that of Stallions 0,
    and the one Cranium lookup is rejected.  No alert is raised; the
    Cranium setter is not called. *)
Theorem fetch_lookup_rejection_unreported :
  exists s,
    run engine [SettleBalance Cranium (Fulfilled 1%N);
         SettleBalance Stallion (Fulfilled 0%N);
         SettleLookup Cranium 0 (Rejected (Some "call revert exception"))]
        (clickFetch "0x00a1" initialState) = Some s
    /\ pick Cranium (lookups s)
       = [Some (Rejected (Some "call revert exception"))]
    /\ alerts (trace s) = []
    /\ setterCalls Cranium (trace s) = []
    /\ owned Cranium (ui s) = [].
Proof. eexists. split; [ vm_compute; reflexivity | ]. repeat split. Qed.

(** *** The owner of the calls *)

Lemma byAccount_tokenCalls (c : Collection) (account : string)
    (a : list unit) :
  Forall (byAccount account) (tokenCalls c account a).
Proof.
  unfold tokenCalls.
  rewrite (imap_seq_0 a (fun i => EvCall (TokenOfOwnerByIndex c account i))).
  apply Forall_fmap, Forall_forall. intros i _. reflexivity.
Qed.

Lemma byAccount_whenAllFulfilled (account : string) (c : Collection)
    (s : FetchState) :
  Forall (byAccount account) (trace s) ->
  Forall (byAccount account) (trace (whenAllFulfilled c s)).
Proof.
  intros H. unfold whenAllFulfilled.
  destruct (allFulfilled (pick c (lookups s))); [ | exact H ].
  simpl_state. apply Forall_app. split; [ exact H | ].
  repeat constructor.
Qed.

Lemma byAccount_catchFetch (account : string) (e : Reason) (s : FetchState) :
  Forall (byAccount account) (trace s) ->
  Forall (byAccount account) (trace (catchFetch e s)).
Proof.
  intros H. simpl_state. apply Forall_app. split; [ exact H | ].
  repeat constructor.
Qed.

Lemma byAccount_issueLookups (c : Collection) (a : list unit)
    (s : FetchState) :
  Forall (byAccount (acct s)) (trace s) ->
  Forall (byAccount (acct s)) (trace (issueLookups c a s)).
Proof.
  intros H. simpl_state. apply Forall_app. split; [ exact H | ].
  apply byAccount_tokenCalls.
Qed.

Lemma byAccount_thenBalances (cb sb : N) (s : FetchState) :
  Forall (byAccount (acct s)) (trace s) ->
  Forall (byAccount (acct s)) (trace (thenBalances engine cb sb s)).
Proof.
  intros H. unfold thenBalances.
  destruct (arrayLength (Number cb)) as [nc | ];
    [ | apply byAccount_catchFetch, H ].
  destruct (undefineds engine nc) as [ac | ];
    [ | apply byAccount_catchFetch, H ].
  pose proof (byAccount_issueLookups Cranium ac s H) as H1.
  destruct (arrayLength (Number sb)) as [ns | ];
    [ | apply byAccount_catchFetch, H1 ].
  destruct (undefineds engine ns) as [asb | ];
    [ | apply byAccount_catchFetch, H1 ].
  cbv zeta.
  apply byAccount_whenAllFulfilled, byAccount_whenAllFulfilled.
  apply (byAccount_issueLookups Stallion asb (issueLookups Cranium ac s)).
  exact H1.
Qed.

Lemma byAccount_step (a : Action) (s s' : FetchState) :
  step engine a s = Some s' ->
  Forall (byAccount (acct s)) (trace s) ->
  acct s' = acct s /\ Forall (byAccount (acct s')) (trace s').
Proof.
  intros Hstep H. destruct a as [c o | c i o]; cbn [step] in Hstep.
  - apply settleBalance_cases in Hstep. destruct Hstep as [_ Hcases].
    assert (H1 : Forall (byAccount (acct (afterBalance c o s)))
                   (trace (afterBalance c o s))).
    { unfold afterBalance. simpl_state. apply Forall_app.
      split; [ exact H | repeat constructor ]. }
    destruct Hcases as [-> | [(e & _ & _ & ->) | (cb & sb & _ & _ & ->)]].
    + split; [ reflexivity | exact H1 ].
    + split; [ reflexivity | ]. apply byAccount_catchFetch, H1.
    + destruct (thenBalances_extends cb sb (afterBalance c o s))
        as (Hacct & _).
      rewrite Hacct. split; [ reflexivity | ].
      apply byAccount_thenBalances, H1.
  - apply settleLookup_cases in Hstep. destruct Hstep as [_ Hcases].
    assert (H1 : Forall (byAccount (acct (afterLookup c i o s)))
                   (trace (afterLookup c i o s))).
    { unfold afterLookup. simpl_state. apply Forall_app.
      split; [ exact H | repeat constructor ]. }
    destruct Hcases as [-> | (_ & ->)].
    + split; [ reflexivity | exact H1 ].
    + destruct (whenAllFulfilled_extends c (afterLookup c i o s))
        as (Hacct & _).
      rewrite Hacct. split; [ reflexivity | ].
      apply byAccount_whenAllFulfilled, H1.
Qed.

Lemma byAccount_run (acts : list Action) (s s' : FetchState) :
  run engine acts s = Some s' ->
  Forall (byAccount (acct s)) (trace s) ->
  acct s' = acct s /\ Forall (byAccount (acct s')) (trace s').
Proof.
  revert s. induction acts as [ | a acts IH]; intros s Hrun H.
  - injection Hrun as <-. auto.
  - cbn [run] in Hrun. destruct (step engine a s) as [s1 | ] eqn:Hstep;
      [ | discriminate ].
    destruct (byAccount_step _ _ _ Hstep H) as [Ha H1].
    destruct (IH _ Hrun H1) as [Ha' H']. split; [ congruence | exact H' ].
Qed.

(** Every contract call of a run is made for the account of the click. *)
Lemma byAccount_reachable (account : string) (st0 : State)
    (acts : list Action) (s : FetchState) :
  run engine acts (clickFetch account st0) = Some s ->
  Forall (byAccount account) (trace s).
Proof.
  intros Hrun.
  destruct (byAccount_run _ _ _ Hrun) as [Ha H].
  - repeat constructor.
  - rewrite Ha in H. exact H.
Qed.

Lemma lookupCalls_byAccount (c : Collection) (account : string)
    (tr : list Event) :
  Forall (byAccount account) tr ->
  lookupCalls c tr = TokenOfOwnerByIndex c account <$> lookupIndices c tr.
Proof.
  unfold lookupCalls, lookupIndices.
  induction 1 as [ | ev tr Hev _ IH]; [ reflexivity | ].
  cbn [omap list_omap]. rewrite IH.
  destruct ev as [ | [ | | c' owner i | ] | | | | ]; try reflexivity.
  cbn in Hev. subst owner.
  destruct (decide (c' = c)) as [-> | ]; reflexivity.
Qed.

(** *** Lookups and owned ids *)

Lemma Interact_boxes (props : Props) (st : State) (panel : Panel) :
  Interact props st = Some panel ->
  craniumBoxes panel = checkboxes Cranium (owned Cranium st)
  /\ stallionBoxes panel = checkboxes Stallion (owned Stallion st).
Proof.
  unfold Interact.
  destruct (is_Some' (library props) && truthy_string (account props));
    [ | discriminate ].
  intros [= <-]. split; reflexivity.
Qed.

(** What a run has set once both balances are fulfilled with usable
    values: a collection whose lookups are all fulfilled, to their values
    converted with [Number]; another, not at all. *)
Lemma set_when_own_lookups_fulfilled (account : string) (st0 : State)
    (acts : list Action) (s : FetchState) (cb sb : N) :
  usableBalance engine cb -> usableBalance engine sb ->
  run engine acts (clickFetch account st0) = Some s ->
  balances s = both (Some (Fulfilled cb)) (Some (Fulfilled sb)) ->
  forall c,
    lookupIndices c (trace s) = seq 0 (N.to_nat (pick c (both cb sb)))
    /\ length (pick c (lookups s)) = N.to_nat (pick c (both cb sb))
    /\ match allFulfilled (pick c (lookups s)) with
       | Some vs =>
           owned c (ui s) = map Number vs
           /\ setterCalls c (trace s) = [map Number vs]
       | None =>
           owned c (ui s) = owned c st0 /\ setterCalls c (trace s) = []
       end.
Proof.
  intros Hcb Hsb Hrun Hb c.
  pose proof (Inv_reachable _ _ _ _ Hrun) as HI.
  destruct (issued_when_balances_fulfilled _ _ _ _ _ HI Hb Hcb Hsb)
    as (Hch & Hlc & Hls).
  assert (Hlen : length (pick c (lookups s))
                 = N.to_nat (pick c (both cb sb))).
  { destruct c; assumption. }
  destruct HI as [_ _ Hcalls HI]. rewrite Hch in HI.
  destruct HI as (_ & cb' & sb' & _ & _ & _ & Hset).
  split; [ rewrite Hcalls, Hlen; reflexivity | ].
  split; [ exact Hlen | ]. apply Hset.
Qed.

(** What a run has set once both balances are fulfilled and the callback
    has thrown on one of them: nothing; and what it has issued. *)
Lemma nothing_set_when_callback_throws (account : string) (st0 : State)
    (acts : list Action) (s : FetchState) (cb sb : N) :
  run engine acts (clickFetch account st0) = Some s ->
  balances s = both (Some (Fulfilled cb)) (Some (Fulfilled sb)) ->
  lookupCount engine cb = None \/ lookupCount engine sb = None ->
  length (alerts (trace s)) = 1
  /\ ui s = st0
  /\ (forall c, setterCalls c (trace s) = [])
  /\ issuedBeforeThrow engine cb sb (lookups s).
Proof.
  intros Hrun Hb Hbad. destruct (Inv_reachable _ _ _ _ Hrun) as [_ _ _ Hch].
  destruct (chain s).
  - destruct Hch as (_ & _ & _ & _ & _ & c & Hc). rewrite Hb in Hc.
    destruct c; discriminate.
  - destruct Hch as (_ & cb' & sb' & Hb' & Hlc & Hls & _).
    rewrite Hb in Hb'. injection Hb' as <- <-.
    destruct Hbad; congruence.
  - destruct Hch as (Hui & Hal & Hset & [(c & e & He) | (cb' & sb' & Hb' & Hiss)]).
    + rewrite Hb in He. destruct c; discriminate.
    + rewrite Hb in Hb'. injection Hb' as <- <-. auto.
Qed.

(** The lookup calls of such a run: none when the callback throws on the
    Cranium balance; when it throws on the Stallion balance, those of the
    Craniums. *)
Lemma lookupCalls_when_callback_throws (account : string) (st0 : State)
    (acts : list Action) (s : FetchState) (cb sb : N) :
  run engine acts (clickFetch account st0) = Some s ->
  balances s = both (Some (Fulfilled cb)) (Some (Fulfilled sb)) ->
  lookupCount engine cb = None \/ lookupCount engine sb = None ->
  lookupCalls Stallion (trace s) = []
  /\ (lookupCount engine cb = None -> lookupCalls Cranium (trace s) = [])
  /\ (usableBalance engine cb ->
      lookupCalls Cranium (trace s)
      = TokenOfOwnerByIndex Cranium account <$> seq 0 (N.to_nat cb)).
Proof.
  intros Hrun Hb Hbad.
  destruct (nothing_set_when_callback_throws account st0 acts s cb sb
              Hrun Hb Hbad) as (_ & _ & _ & Hiss).
  pose proof (byAccount_reachable _ _ _ _ Hrun) as Hby.
  destruct (Inv_reachable _ _ _ _ Hrun) as [_ _ Hcalls _].
  rewrite !(lookupCalls_byAccount _ account (trace s) Hby), !Hcalls.
  unfold issuedBeforeThrow in Hiss.
  destruct (lookupCount engine cb) as [nc | ] eqn:Hnc.
  - destruct Hiss as (_ & Hlc & Hls). cbn [pick]. rewrite Hls, Hlc.
    split; [ reflexivity | ]. split; [ discriminate | ].
    intros Hcb. apply lookupCount_usable in Hcb.
    rewrite Hnc in Hcb. injection Hcb as ->. reflexivity.
  - rewrite Hiss. cbn [pick ofCranium ofStallion].
    split; [ reflexivity | ]. split; [ reflexivity | ].
    intros Hcb. apply lookupCount_usable in Hcb. congruence.
Qed.

Lemma lookupCount_unusable (b : N) :
  ~ usableBalance engine b -> lookupCount engine b = None.
Proof.
  intros Hb. destruct (N.lt_ge_cases b (2 ^ 32)) as [Hlt | Hge].
  - destruct (Nat.le_gt_cases (N.to_nat b) (maxArguments engine))
      as [Hle | Hgt].
    + destruct Hb. split; assumption.
    + apply lookupCount_too_many, Hgt.
  - apply lookupCount_too_long, Hge.
Qed.

(** C3, as the code has it: when the two balance queries are fulfilled
    with usable values (below 2^32, and no more than the engine's [apply]
    takes as arguments), Fetch issues for each collection the lookups of
    indices 0 to balance - 1 for the account, in this order and no other;
    once the lookups of a collection are all fulfilled its owned ids are
    set, once, to the values converted with [Number], in index order; the
    provider can fulfil them all; and with both balances 0 both sequences
    are set to empty and no checkbox is rendered. *)
Theorem fetch_issues_lookups_and_sets_owned (account : string) (st0 : State)
    (cb sb : N) :
  usableBalance engine cb -> usableBalance engine sb ->
  (forall acts s,
     run engine acts (clickFetch account st0) = Some s ->
     balances s = both (Some (Fulfilled cb)) (Some (Fulfilled sb)) ->
     forall c,
       lookupCalls c (trace s)
       = TokenOfOwnerByIndex c account
           <$> seq 0 (N.to_nat (pick c (both cb sb)))
       /\ lookupIndices c (trace s) = seq 0 (N.to_nat (pick c (both cb sb)))
       /\ length (pick c (lookups s)) = N.to_nat (pick c (both cb sb))
       /\ forall vs,
            pick c (lookups s) = fulfilled vs ->
            owned c (ui s) = map Number vs
            /\ setterCalls c (trace s) = [map Number vs])
  /\ (forall vc vs,
        length vc = N.to_nat cb -> length vs = N.to_nat sb ->
        exists s,
          run engine (fulfilBalances cb sb
               ++ fulfilFrom Cranium 0 vc ++ fulfilFrom Stallion 0 vs)
              (clickFetch account st0) = Some s
          /\ balances s = both (Some (Fulfilled cb)) (Some (Fulfilled sb))
          /\ lookups s = both (fulfilled vc) (fulfilled vs))
  /\ (cb = 0%N -> sb = 0%N ->
      forall acts s,
        run engine acts (clickFetch account st0) = Some s ->
        balances s = both (Some (Fulfilled cb)) (Some (Fulfilled sb)) ->
        setterCalls Cranium (trace s) = [[]]
        /\ setterCalls Stallion (trace s) = [[]]
        /\ owned Cranium (ui s) = []
        /\ owned Stallion (ui s) = []
        /\ forall props panel,
             Interact props (ui s) = Some panel ->
             craniumBoxes panel = [] /\ stallionBoxes panel = []).
Proof.
  intros Hcb Hsb.
  assert (HA : forall acts s,
     run engine acts (clickFetch account st0) = Some s ->
     balances s = both (Some (Fulfilled cb)) (Some (Fulfilled sb)) ->
     forall c,
       lookupCalls c (trace s)
       = TokenOfOwnerByIndex c account
           <$> seq 0 (N.to_nat (pick c (both cb sb)))
       /\ lookupIndices c (trace s) = seq 0 (N.to_nat (pick c (both cb sb)))
       /\ length (pick c (lookups s)) = N.to_nat (pick c (both cb sb))
       /\ forall vs,
            pick c (lookups s) = fulfilled vs ->
            owned c (ui s) = map Number vs
            /\ setterCalls c (trace s) = [map Number vs]).
  { intros acts s Hrun Hb c.
    destruct (set_when_own_lookups_fulfilled account st0 acts s cb sb
                Hcb Hsb Hrun Hb c) as (Hcalls & Hlen & Hset).
    split.
    { rewrite (lookupCalls_byAccount c account (trace s)
                 (byAccount_reachable _ _ _ _ Hrun)), Hcalls.
      reflexivity. }
    split; [ exact Hcalls | ]. split; [ exact Hlen | ].
    intros vs Hvs. rewrite Hvs in Hset.
    unfold fulfilled in Hset. rewrite allFulfilled_values in Hset.
    exact Hset. }
  split; [ exact HA | split ].
  - intros vc vs Hvc Hvs.
    destruct (run_fulfil_both account st0 cb sb vc vs Cranium Hcb Hsb Hvc Hvs)
      as (s & Hrun & Hb & Hl & _).
    exists s. auto.
  - intros -> -> acts s Hrun Hb.
    destruct (HA acts s Hrun Hb Cranium) as (_ & _ & HlC & HsetC).
    destruct (HA acts s Hrun Hb Stallion) as (_ & _ & HlS & HsetS).
    cbn in HlC, HlS.
    apply length_zero_iff_nil in HlC, HlS.
    destruct (HsetC [] HlC) as [HoC HcC].
    destruct (HsetS [] HlS) as [HoS HcS].
    change (map Number []) with (@nil N) in *.
    do 4 (split; [ assumption | ]).
    intros props panel Hp. apply Interact_boxes in Hp.
    destruct Hp as [-> ->]. rewrite HoC, HoS. split; reflexivity.
Qed.

(** A Cranium balance that is not an array length: whatever the Stallion
    balance and the engine, the callback throws before it issues a
    lookup. *)
Lemma fetch_balance_too_long (account : string) (st0 : State) (cb sb : N) :
  (2 ^ 32 <= cb)%N ->
  exists s,
    run engine (fulfilBalances cb sb) (clickFetch account st0) = Some s
    /\ chain s = Caught
    /\ (forall c, lookupIndices c (trace s) = [])
    /\ length (alerts (trace s)) = 1
    /\ ui s = st0.
Proof.
  intros Hcb. apply arrayLength_too_long in Hcb.
  exists (thenBalances engine cb sb
            (afterBalance Stallion (Fulfilled sb)
               (afterBalance Cranium (Fulfilled cb)
                  (clickFetch account st0)))).
  split; [ reflexivity | ].
  unfold thenBalances. rewrite Hcb.
  repeat split.
Qed.

Lemma seq_nonempty (n : nat) : n <> 0 -> seq 0 n <> [].
Proof. destruct n; [ congruence | discriminate ]. Qed.

(** *** Order *)

Lemma State_ext (a b : State) :
  (forall c, owned c a = owned c b) ->
  (forall c, checked c a = checked c b) ->
  a = b.
Proof.
  intros Ho Hc. destruct a, b.
  pose proof (Ho Cranium). pose proof (Ho Stallion).
  pose proof (Hc Cranium). pose proof (Hc Stallion).
  cbn in *. congruence.
Qed.

Lemma settleLookup_other_untouched (s s' : FetchState) (c : Collection)
    (i : nat) (o : Settled N) :
  settleLookup c i o s = Some s' ->
  pick (other c) (lookups s') = pick (other c) (lookups s)
  /\ owned (other c) (ui s') = owned (other c) (ui s)
  /\ setterCalls (other c) (trace s') = setterCalls (other c) (trace s).
Proof.
  unfold settleLookup.
  destruct (pick c (lookups s) !! i) as [[? | ] | ]; try discriminate.
  intros [= <-]. simpl_state.
  assert (Hother : forall (A : Type) (x : A) (p : Both A),
            pick (other c) (put c x p) = pick (other c) p).
  { intros A x p. destruct c; reflexivity. }
  assert (Hne : other c <> c) by (destruct c; discriminate).
  destruct (chain s) eqn:Hc; simpl_state;
    try (rewrite Hother, setterCalls_app, setterCalls_settle, app_nil_r;
         repeat split).
  unfold whenAllFulfilled. simpl_state. rewrite pick_put, decide_True by reflexivity.
  destruct (allFulfilled _) as [ws | ] eqn:Hall; simpl_state.
  - rewrite Hother, !setterCalls_app, setterCalls_settle, setterCalls_set.
    rewrite decide_False by (intros Heq; apply Hne; symmetry; exact Heq).
    rewrite !app_nil_r, !owned_setOwned.
    rewrite decide_False by (intros Heq; apply Hne; symmetry; exact Heq).
    repeat split.
  - rewrite Hother, setterCalls_app, setterCalls_settle, app_nil_r.
    repeat split.
Qed.

(** C4, as the code has it.  In every run of Fetch a lookup call comes
    after the fulfilment of both balance queries.  The settlement of a
    lookup of one collection leaves the lookups, the owned ids and the
    setter of the other as they are, in whatever state.  When both
    balances are usable, a collection is set exactly when its own lookups
    are all fulfilled, wherever the lookups of the other stand; when the
    callback throws on one of the balances no collection is ever set: no
    Stallion lookup is issued, and the Cranium lookups, issued when the
    Cranium balance is usable, are not followed by a set.  And when both collections have lookups to wait for, there
    is a run that sets the Craniums first and a run that sets the
    Stallions first, with the same result. *)
Theorem fetch_balances_before_lookups_collections_unordered
    (account : string) (st0 : State) :
  (forall acts s,
     run engine acts (clickFetch account st0) = Some s ->
     balancesBeforeLookups account (trace s))
  /\ (forall s c i o s',
        settleLookup c i o s = Some s' ->
        pick (other c) (lookups s') = pick (other c) (lookups s)
        /\ owned (other c) (ui s') = owned (other c) (ui s)
        /\ setterCalls (other c) (trace s') = setterCalls (other c) (trace s))
  /\ (forall cb sb acts s,
        run engine acts (clickFetch account st0) = Some s ->
        balances s = both (Some (Fulfilled cb)) (Some (Fulfilled sb)) ->
        (usableBalance engine cb -> usableBalance engine sb ->
         forall c,
           match allFulfilled (pick c (lookups s)) with
           | Some vs =>
               owned c (ui s) = map Number vs
               /\ setterCalls c (trace s) = [map Number vs]
           | None =>
               owned c (ui s) = owned c st0 /\ setterCalls c (trace s) = []
           end)
        /\ (~ usableBalance engine cb \/ ~ usableBalance engine sb ->
            ui s = st0
            /\ (forall c, setterCalls c (trace s) = [])
            /\ lookupCalls Stallion (trace s) = []
            /\ (usableBalance engine cb ->
                lookupCalls Cranium (trace s)
                = TokenOfOwnerByIndex Cranium account
                    <$> seq 0 (N.to_nat cb))))
  /\ (forall cb sb vc vs,
        (0 < cb)%N -> (0 < sb)%N ->
        usableBalance engine cb -> usableBalance engine sb ->
        length vc = N.to_nat cb -> length vs = N.to_nat sb ->
        exists s1 s2,
          run engine (fulfilBalances cb sb
               ++ fulfilFrom Cranium 0 vc ++ fulfilFrom Stallion 0 vs)
              (clickFetch account st0) = Some s1
          /\ run engine (fulfilBalances cb sb
                  ++ fulfilFrom Stallion 0 vs ++ fulfilFrom Cranium 0 vc)
                 (clickFetch account st0) = Some s2
          /\ precedes (EvSet Cranium (map Number vc))
                      (EvSet Stallion (map Number vs)) (trace s1)
          /\ precedes (EvSet Stallion (map Number vs))
                      (EvSet Cranium (map Number vc)) (trace s2)
          /\ ui s1 = ui s2).
Proof.
  split; [ | split; [ | split ] ].
  - intros acts s Hrun.
    pose proof (Ordered_run _ _ _ (Ordered_clickFetch account st0) Hrun)
      as [Ho _].
    pose proof (Inv_reachable _ _ _ _ Hrun) as [Ha _ _ _].
    rewrite Ha in Ho. exact Ho.
  - intros s c i o s'. apply settleLookup_other_untouched.
  - intros cb sb acts s Hrun Hb. split.
    + intros Hcb Hsb c.
      apply (set_when_own_lookups_fulfilled account st0 acts s cb sb
               Hcb Hsb Hrun Hb c).
    + intros Hbad.
      assert (Hnone : lookupCount engine cb = None
                      \/ lookupCount engine sb = None).
      { destruct Hbad as [H | H]; [ left | right ];
          apply lookupCount_unusable, H. }
      destruct (nothing_set_when_callback_throws account st0 acts s cb sb
                  Hrun Hb Hnone) as (_ & Hui & Hset & _).
      destruct (lookupCalls_when_callback_throws account st0 acts s cb sb
                  Hrun Hb Hnone) as (HlS & _ & HlC).
      auto.
  - intros cb sb vc vs Hcb0 Hsb0 Hcb Hsb Hvc Hvs.
    assert (Hc : vc <> []) by (intros ->; cbn in Hvc; lia).
    assert (Hs : vs <> []) by (intros ->; cbn in Hvs; lia).
    destruct (run_fulfil_both account st0 cb sb vc vs Cranium Hcb Hsb Hvc Hvs)
      as (s1 & Hrun1 & Hb1 & Hl1 & Hp1).
    destruct (run_fulfil_both account st0 cb sb vc vs Stallion Hcb Hsb Hvc Hvs)
      as (s2 & Hrun2 & Hb2 & Hl2 & Hp2).
    exists s1, s2.
    split; [ exact Hrun1 | ]. split; [ exact Hrun2 | ].
    split; [ exact (Hp1 Hc Hs) | ]. split; [ exact (Hp2 Hc Hs) | ].
    pose proof (Inv_reachable _ _ _ _ Hrun1) as I1.
    pose proof (Inv_reachable _ _ _ _ Hrun2) as I2.
    destruct (issued_when_balances_fulfilled _ _ _ _ _ I1 Hb1 Hcb Hsb)
      as (Hch1 & _).
    destruct (issued_when_balances_fulfilled _ _ _ _ _ I2 Hb2 Hcb Hsb)
      as (Hch2 & _).
    destruct I1 as [_ Hk1 _ I1]. destruct I2 as [_ Hk2 _ I2].
    rewrite Hch1 in I1. rewrite Hch2 in I2.
    destruct I1 as (_ & ? & ? & _ & _ & _ & Hset1).
    destruct I2 as (_ & ? & ? & _ & _ & _ & Hset2).
    apply State_ext.
    + intros c. specialize (Hset1 c). specialize (Hset2 c).
      rewrite Hl1 in Hset1. rewrite Hl2 in Hset2.
      destruct c; cbn [pick ofCranium ofStallion] in *; unfold fulfilled in *;
        rewrite allFulfilled_values in *; destruct Hset1 as [-> _];
        destruct Hset2 as [-> _]; reflexivity.
    + intros c. rewrite Hk1, Hk2. reflexivity.
Qed.

End WithEngine.

(** *** On the sample engine *)

Lemma usableBalance_sample (b : N) :
  (b <=? 65536)%N = true -> usableBalance sampleEngine b.
Proof.
  intros Hb. apply N.leb_le in Hb. split.
  - eapply N.le_lt_trans; [ exact Hb | reflexivity ].
  - unfold maxArguments, sampleEngine. cbn [extraArguments]. lia.
Qed.

Lemma fetch_issues_lookups_and_sets_owned_witness :
  exists s,
    run sampleEngine
        [SettleBalance Stallion (Fulfilled 1%N);
         SettleBalance Cranium (Fulfilled 2%N);
         SettleLookup Cranium 1 (Fulfilled 40%N);
         SettleLookup Stallion 0 (Fulfilled 9%N);
         SettleLookup Cranium 0 (Fulfilled 30%N)]
        (clickFetch "0x00a1" initialState) = Some s
    /\ lookupCalls Cranium (trace s)
       = [TokenOfOwnerByIndex Cranium "0x00a1" 0;
          TokenOfOwnerByIndex Cranium "0x00a1" 1]
    /\ owned Cranium (ui s) = [30%N; 40%N]
    /\ setterCalls Cranium (trace s) = [[30%N; 40%N]].
Proof.
  eexists. split; [ vm_compute; reflexivity | ].
  destruct (fetch_issues_lookups_and_sets_owned sampleEngine
              "0x00a1" initialState 2 1
              (usableBalance_sample 2 eq_refl)
              (usableBalance_sample 1 eq_refl)) as [HA _].
  match goal with |- lookupCalls _ (trace ?s) = _ /\ _ =>
    assert (Hrun :
      run sampleEngine
          [SettleBalance Stallion (Fulfilled 1%N);
           SettleBalance Cranium (Fulfilled 2%N);
           SettleLookup Cranium 1 (Fulfilled 40%N);
           SettleLookup Stallion 0 (Fulfilled 9%N);
           SettleLookup Cranium 0 (Fulfilled 30%N)]
          (clickFetch "0x00a1" initialState) = Some s)
      by (vm_compute; reflexivity);
    destruct (HA _ s Hrun eq_refl Cranium) as (Hcalls & _ & _ & Hset) end.
  split; [ exact Hcalls | ].
  exact (Hset [30%N; 40%N] eq_refl).
Defined.

(** C3, as stated, fails for a balance that is not an array length: with
    a Cranium balance of 2^32 (and a Stallion balance of 0) [Array] throws,
    no lookup is issued, the alert is raised and nothing is set. *)
Lemma fetch_balance_beyond_array_length :
  exists s,
    run sampleEngine (fulfilBalances (2 ^ 32) 0)
        (clickFetch "0x00a1" initialState)
    = Some s
    /\ balances s = both (Some (Fulfilled (2 ^ 32)%N)) (Some (Fulfilled 0%N))
    /\ lookupIndices Cranium (trace s) = []
    /\ lookupIndices Cranium (trace s) <> seq 0 (N.to_nat (2 ^ 32))
    /\ length (alerts (trace s)) = 1
    /\ ui s = initialState.
Proof.
  assert (Hn : N.to_nat (2 ^ 32) <> 0).
  { intros H. apply (f_equal N.of_nat) in H. rewrite N2Nat.id in H.
    discriminate H. }
  revert Hn. generalize (N.to_nat (2 ^ 32)). intros n Hn.
  eexists. split; [ vm_compute; reflexivity | ].
  split; [ reflexivity | ]. split; [ reflexivity | ].
  split; [ | split; reflexivity ].
  intros H. apply (seq_nonempty n Hn). symmetry. exact H.
Qed.

(** C4, as stated, fails where the callback throws on the Stallion
    balance.  Take two runs with a Cranium balance of 1, whose one lookup
    is issued and fulfilled with 30, and no Stallion lookup: with a
    Stallion balance of 0 the Craniums are set to [30]; with a Stallion
    balance of 2^32 they are never set. *)
Lemma fetch_cranium_set_depends_on_stallion_balance :
  exists s s',
    run sampleEngine (fulfilBalances 1 0 ++ fulfilFrom Cranium 0 [30%N])
        (clickFetch "0x00a1" initialState) = Some s
    /\ run sampleEngine
           (fulfilBalances 1 (2 ^ 32) ++ fulfilFrom Cranium 0 [30%N])
           (clickFetch "0x00a1" initialState) = Some s'
    /\ lookupCalls Cranium (trace s)
       = [TokenOfOwnerByIndex Cranium "0x00a1" 0]
    /\ lookupCalls Cranium (trace s')
       = [TokenOfOwnerByIndex Cranium "0x00a1" 0]
    /\ lookupCalls Stallion (trace s) = []
    /\ lookupCalls Stallion (trace s') = []
    /\ pick Cranium (lookups s) = fulfilled [30%N]
    /\ pick Cranium (lookups s') = fulfilled [30%N]
    /\ setterCalls Cranium (trace s) = [[30%N]]
    /\ owned Cranium (ui s) = [30%N]
    /\ setterCalls Cranium (trace s') = []
    /\ owned Cranium (ui s') = [].
Proof.
  eexists. eexists.
  split; [ vm_compute; reflexivity | ].
  split; [ vm_compute; reflexivity | ].
  repeat split.
Qed.

Lemma fetch_balances_before_lookups_collections_unordered_witness :
  exists s1 s2,
    run sampleEngine (fulfilBalances 1 1
         ++ fulfilFrom Cranium 0 [30%N] ++ fulfilFrom Stallion 0 [9%N])
        (clickFetch "0x00a1" initialState) = Some s1
    /\ run sampleEngine (fulfilBalances 1 1
            ++ fulfilFrom Stallion 0 [9%N] ++ fulfilFrom Cranium 0 [30%N])
           (clickFetch "0x00a1" initialState) = Some s2
    /\ precedes (EvSet Cranium [30%N]) (EvSet Stallion [9%N]) (trace s1)
    /\ precedes (EvSet Stallion [9%N]) (EvSet Cranium [30%N]) (trace s2)
    /\ ui s1 = ui s2.
Proof.
  apply (proj2 (proj2 (proj2
           (fetch_balances_before_lookups_collections_unordered
              sampleEngine "0x00a1" initialState))) 1%N 1%N [30%N] [9%N]);
    try reflexivity; apply usableBalance_sample; reflexivity.
Defined.

End FetchFacts.

(** ** More of [App] *)

Module AppFacts.
Import Wallet.

Section AppFacts.
Context {Connector : Type} `{EqDecision Connector}.
Variable connectorsByName : ConnectorNames -> Connector.

Lemma same_ref_iff (a : Connector) (b : option Connector) :
  same_ref a b = true <-> b = Some a.
Proof. unfold same_ref. apply bool_decide_eq_true. Qed.

Lemma same_ref_None (a : Connector) : same_ref a None = false.
Proof. unfold same_ref. apply bool_decide_eq_false. discriminate. Qed.

Lemma message_fixed (e : Errors.Error) :
  Errors.getErrorMessage e ∈ Errors.fixedMessages.
Proof.
  unfold Errors.fixedMessages. destruct e; cbn; rewrite !elem_of_cons; tauto.
Qed.

(** X1: the Deactivate button is rendered exactly when the mark of the
    header is not the orange one. *)
Theorem deactivate_shown_iff_not_orange (ctx : Web3Context Connector) :
  deactivateShown ctx = true <-> headerStatus ctx <> Orange.
Proof.
  unfold deactivateShown, headerStatus.
  destruct (active ctx), (is_Some' (error ctx)); cbn;
    split; congruence.
Qed.

(** X2: while an error message is shown it is one of the four fixed
    strings, every connector button is disabled whatever the eager attempt
    and the marker are, and the Deactivate button is there. *)
Theorem error_shown_blocks_connectors (ctx : Web3Context Connector)
    (msg : string) :
  errorShown ctx = Some msg ->
  msg ∈ Errors.fixedMessages
  /\ (forall triedEager activatingConnector name,
        disabled (connectorButton connectorsByName triedEager
                    activatingConnector ctx name) = true)
  /\ deactivateShown ctx = true
  /\ headerStatus ctx <> Orange.
Proof.
  unfold errorShown, deactivateShown, headerStatus.
  destruct (error ctx) as [e | ] eqn:He; [ | discriminate ].
  intros [= <-]. split; [ apply message_fixed | ].
  split; [ | split ].
  - intros te m name. cbn. rewrite He. cbn. apply orb_true_r.
  - apply orb_true_r.
  - destruct (active ctx); discriminate.
Qed.

(** X3: when a button shows the spinner, every button of the registry is
    disabled; and in a registry with a connector of its own for each key
    no other button shows the spinner. *)
Theorem spinner_blocks_all_buttons (triedEager : bool)
    (activatingConnector : option Connector) (ctx : Web3Context Connector)
    (name : ConnectorNames) :
  spinner (connectorButton connectorsByName triedEager activatingConnector
             ctx name) = true ->
  (forall name',
     disabled (connectorButton connectorsByName triedEager
                 activatingConnector ctx name') = true)
  /\ ((forall a b, connectorsByName a = connectorsByName b -> a = b) ->
      forall name',
        spinner (connectorButton connectorsByName triedEager
                   activatingConnector ctx name') = true ->
        name' = name).
Proof.
  cbn. rewrite same_ref_iff. intros ->. split.
  - intros name'. cbn. rewrite orb_true_r. reflexivity.
  - intros Hinj name'. rewrite same_ref_iff. intros [= Heq].
    apply Hinj. symmetry. exact Heq.
Qed.

(** X4: a click on an enabled connector button records its connector as
    activating, requests its activation once, turns the inactive listener
    from registered to suppressed and leaves every button disabled. *)
Theorem click_on_enabled_button (s : AppState Connector)
    (name : ConnectorNames) :
  disabled (connectorButton connectorsByName (triedEager s)
              (activatingConnector s) (context s) name) = false ->
  let s' := appStep connectorsByName s (Click name) in
  activatingConnector s' = Some (connectorsByName name)
  /\ activateCalls s' = activateCalls s ++ [connectorsByName name]
  /\ context s' = context s
  /\ suppressInactiveListener (triedEager s) (activatingConnector s) = false
  /\ suppressInactiveListener (triedEager s') (activatingConnector s') = true
  /\ (forall name',
        disabled (connectorButton connectorsByName (triedEager s')
                    (activatingConnector s') (context s') name') = true).
Proof.
  intros Hd. cbn zeta. unfold appStep, onClick. rewrite Hd.
  cbn in Hd. apply orb_false_iff in Hd. destruct Hd as [Hd _].
  apply orb_false_iff in Hd. destruct Hd as [Hd Hconn].
  apply orb_false_iff in Hd. destruct Hd as [Hte Hm].
  unfold runEffect, activatingEffect. cbn.
  rewrite Hconn. cbn.
  unfold suppressInactiveListener. rewrite Hte, Hm.
  repeat split.
Qed.

Lemma appStep_while_activating (s : AppState Connector)
    (e : AppEvent Connector) (c : Connector) :
  activatingConnector s = Some c ->
  connector (context s) <> Some c ->
  noContextChange e ->
  activatingConnector (appStep connectorsByName s e) = Some c
  /\ context (appStep connectorsByName s e) = context s
  /\ activateCalls (appStep connectorsByName s e) = activateCalls s.
Proof.
  intros Hm Hc He.
  assert (Hsr : same_ref c (connector (context s)) = false).
  { unfold same_ref. apply bool_decide_eq_false. exact Hc. }
  destruct e as [name | ctx | ]; [ | destruct He | ].
  - unfold appStep, onClick. cbn. rewrite Hm. cbn.
    rewrite orb_true_r. cbn.
    unfold runEffect, activatingEffect. cbn. rewrite Hm, Hsr. auto.
  - unfold appStep, runEffect, activatingEffect. cbn. rewrite Hm, Hsr. auto.
Qed.

(** X5: while a connector is being activated (the marker is set and is not
    yet the active connector) clicks on the connector buttons do nothing:
    whatever the clicks, until the context changes no further activation
    is requested and the marker stays. *)
Theorem clicks_ignored_while_activating (s : AppState Connector)
    (events : list (AppEvent Connector)) (c : Connector) :
  activatingConnector s = Some c ->
  connector (context s) <> Some c ->
  Forall noContextChange events ->
  activatingConnector (fold_left (appStep connectorsByName) events s) = Some c
  /\ activateCalls (fold_left (appStep connectorsByName) events s)
     = activateCalls s.
Proof.
  revert s. induction events as [ | e events IH]; intros s Hm Hc Hev; cbn.
  - auto.
  - pose proof (Forall_inv Hev) as He. apply Forall_inv_tail in Hev.
    destruct (appStep_while_activating s e c Hm Hc He) as (Hm' & Hctx & Hcalls).
    rewrite <- Hcalls. apply IH; try assumption. rewrite Hctx. exact Hc.
Qed.

Lemma same_ref_self (a : Connector) : same_ref a (Some a) = true.
Proof. apply same_ref_iff. reflexivity. Qed.

Lemma same_ref_other (a b : ConnectorNames) :
  (forall x y, connectorsByName x = connectorsByName y -> x = y) ->
  a <> b ->
  same_ref (connectorsByName a) (Some (connectorsByName b)) = false.
Proof.
  intros Hinj Hab. unfold same_ref. apply bool_decide_eq_false.
  intros [= Heq]. apply Hab. apply Hinj. symmetry. exact Heq.
Qed.

(** X6: without an active connector no session button is rendered; and in
    a registry with a connector of its own for each key, the only button
    calling [close] is the one of the active connector, for the six
    connectors that have one. *)
Theorem session_controls_follow_connector (ctx : Web3Context Connector) :
  (connector ctx = None -> sessionControls connectorsByName ctx = [])
  /\ ((forall x y, connectorsByName x = connectorsByName y -> x = y) ->
      forall name,
        connector ctx = Some (connectorsByName name) ->
        closeLabels (sessionControls connectorsByName ctx)
        = match name with
          | WalletConnect => ["Kill WalletConnect Session"]
          | WalletLink => ["Kill WalletLink Session"]
          | Fortmatic => ["Kill Fortmatic Session"]
          | Magic => ["Kill Magic Session"]
          | Portis => ["Kill Portis Session"]
          | Torus => ["Kill Torus Session"]
          | _ => []
          end).
Proof.
  split.
  - intros Hc. unfold sessionControls, killButton. rewrite Hc.
    rewrite !same_ref_None. reflexivity.
  - intros Hinj name Hc. unfold sessionControls, killButton. rewrite Hc.
    destruct name;
      rewrite ?same_ref_self;
      rewrite ?(same_ref_other _ _ Hinj) by discriminate;
      cbn; try reflexivity;
      destruct (truthy_chainId (chainId ctx)); try reflexivity;
      destruct (is_Some' (chainId ctx)); reflexivity.
Qed.

Lemma killButton_close (name : ConnectorNames) (label : string)
    (ctx : Web3Context Connector) (b : SessionButton) :
  b ∈ killButton connectorsByName name label ctx -> sessionCall b = Close.
Proof.
  unfold killButton. destruct (same_ref _ _).
  - intros Hb. apply list_elem_of_singleton in Hb. subst b. reflexivity.
  - intros Hb. apply elem_of_nil in Hb. destruct Hb.
Qed.

(** X7: a Switch Networks button never asks for the chain the context is
    on: it is rendered only when the chain id is known, the Network
    connector is asked for chain 4 from chain 1 and for chain 1 from any
    other, the Portis connector for 100 and 1. *)
Theorem switch_asks_for_another_chain (ctx : Web3Context Connector)
    (b : SessionButton) (target : N) :
  b ∈ sessionControls connectorsByName ctx ->
  sessionCall b = ChangeChainId target \/ sessionCall b = ChangeNetwork target ->
  exists current,
    chainId ctx = Some current
    /\ target <> current
    /\ target = (if (current =? 1)%N
                 then match sessionCall b with
                      | ChangeChainId _ => 4
                      | _ => 100
                      end
                 else 1)%N.
Proof.
  unfold sessionControls. rewrite !elem_of_app.
  intros Hb Hcall.
  assert (Hkill : forall name label,
            b ∈ killButton connectorsByName name label ctx -> False).
  { intros name label Hk. apply killButton_close in Hk.
    destruct Hcall as [Hc | Hc]; congruence. }
  destruct Hb as [Hb | [Hb | [Hb | [Hb | [Hb | [Hb | Hb]]]]]];
    try (exfalso; eapply Hkill; exact Hb).
  - destruct (same_ref _ _ && truthy_chainId (chainId ctx)) eqn:E;
      [ | apply elem_of_nil in Hb; destruct Hb ].
    apply andb_true_iff in E. destruct E as [_ E].
    apply list_elem_of_singleton in Hb. subst b. cbn in *.
    destruct (chainId ctx) as [current | ]; [ | discriminate ].
    exists current. split; [ reflexivity | ].
    cbn in *. destruct Hcall as [[= <-] | [=]].
    destruct (N.eqb_spec current 1) as [Heq | Hne];
      (split; [ lia | reflexivity ]).
  - destruct (same_ref _ _); [ | apply elem_of_nil in Hb; destruct Hb ].
    apply elem_of_app in Hb. destruct Hb as [Hb | Hb].
    + destruct (chainId ctx) as [current | ];
        [ | apply elem_of_nil in Hb; destruct Hb ].
      cbn in Hb. apply list_elem_of_singleton in Hb. subst b. cbn in *.
      exists current. split; [ reflexivity | ].
      destruct Hcall as [[=] | [= <-]].
      destruct (N.eqb_spec current 1) as [Heq | Hne];
        (split; [ lia | reflexivity ]).
    + apply list_elem_of_singleton in Hb. subst b. cbn in Hcall.
      destruct Hcall; discriminate.
Qed.

End AppFacts.

Lemma error_shown_blocks_connectors_witness :
  errorShown erroredContext = Some Errors.msgUnsupported
  /\ disabled (connectorButton sampleRegistry true None erroredContext Ledger)
     = true.
Proof.
  split; [ reflexivity | ].
  apply (proj1 (proj2 (error_shown_blocks_connectors sampleRegistry
                         erroredContext _ eq_refl))).
Defined.

Lemma spinner_blocks_all_buttons_witness :
  spinner (connectorButton sampleRegistry true (Some 7) disconnected Frame)
  = true
  /\ disabled (connectorButton sampleRegistry true (Some 7) disconnected
                 Injected) = true.
Proof.
  split; [ reflexivity | ].
  assert (H : spinner (connectorButton sampleRegistry true (Some 7)
                         disconnected Frame) = true) by reflexivity.
  apply (proj1 (spinner_blocks_all_buttons sampleRegistry true (Some 7)
                  disconnected Frame H)).
Defined.

Lemma click_on_enabled_button_witness :
  activatingConnector (appStep sampleRegistry readyState (Click Frame))
  = Some 7
  /\ activateCalls (appStep sampleRegistry readyState (Click Frame)) = [7].
Proof.
  assert (H : disabled (connectorButton sampleRegistry (triedEager readyState)
                          (activatingConnector readyState)
                          (context readyState) Frame) = false)
    by reflexivity.
  destruct (click_on_enabled_button sampleRegistry readyState Frame H)
    as (Hm & Hc & _).
  split; [ exact Hm | exact Hc ].
Defined.

Lemma clicks_ignored_while_activating_witness :
  activateCalls
    (fold_left (appStep sampleRegistry)
       [Click Injected; Click Frame; EagerTried; Click Torus] activatingState)
  = [7].
Proof.
  apply (proj2 (clicks_ignored_while_activating sampleRegistry activatingState
                  [Click Injected; Click Frame; EagerTried; Click Torus] 7
                  eq_refl ltac:(discriminate)
                  ltac:(repeat constructor))).
Defined.

Lemma switch_asks_for_another_chain_witness :
  exists current,
    chainId (connectedTo 1) = Some current /\ 4%N <> current.
Proof.
  destruct (switch_asks_for_another_chain sampleRegistry (connectedTo 1)
              {| sessionLabel := "Switch Networks";
                 sessionCall := ChangeChainId 4 |} 4%N)
    as (current & Hc & Hne & _).
  - cbn. left.
  - left. reflexivity.
  - exists current. split; assumption.
Defined.

End AppFacts.

(** ** More of the panel *)

Module PanelFacts.
Import Staking Fetch Handlers.

Lemma failureAlert_detail (h : string) (e : Reason) (m : string) :
  detail (failureAlert h e) = Some m <-> e = Some m /\ m <> "".
Proof.
  unfold failureAlert. cbn. destruct e as [m' | ]; cbn.
  - destruct (String.eqb_spec m' "") as [-> | Hne]; cbn.
    + split; [ discriminate | intros [[= <-] H]; congruence ].
    + split; [ intros [= <-]; auto | intros [[= <-] _]; reflexivity ].
  - split; [ discriminate | intros [[=] _] ].
Qed.

(** X8: the alert of a failed operation tells which operation failed (the
    four headlines differ) and carries the message of the error exactly
    when the error has a message that is not empty; a settled Approve or
    Stake alerts once when it is rejected and not at all when it is
    fulfilled, and the alert of Fetch is of the same form. *)
Theorem failure_alert_identifies_operation :
  (forall op1 op2 e1 e2,
     failureAlert (failureHeadline op1) e1 = failureAlert (failureHeadline op2) e2 ->
     op1 = op2)
  /\ (forall op e m,
        detail (failureAlert (failureHeadline op) e) = Some m
        <-> e = Some m /\ m <> "")
  /\ (forall (A : Type) (c : Collection) (o : Settled A),
        alertsOf (approveSettled c o)
        = match o with
          | Fulfilled _ => []
          | Rejected e => [failureAlert (failureHeadline (Approve c)) e]
          end)
  /\ (forall (A : Type) (o : Settled A),
        alertsOf (stakeSettled o)
        = match o with
          | Fulfilled _ => []
          | Rejected e => [failureAlert (failureHeadline StakeChecked) e]
          end)
  /\ (forall e s,
        alerts (trace (catchFetch e s))
        = alerts (trace s) ++ [failureAlert (failureHeadline FetchOwned) e]).
Proof.
  split; [ | split; [ | split; [ | split ] ] ].
  - intros op1 op2 e1 e2 Heq. apply (f_equal headline) in Heq. cbn in Heq.
    destruct op1 as [[ | ] | | ], op2 as [[ | ] | | ];
      try reflexivity; discriminate Heq.
  - intros op e m. apply failureAlert_detail.
  - intros A c o. destruct o; reflexivity.
  - intros A o. destruct o; reflexivity.
  - intros e s. cbn. unfold alerts. rewrite omap_app. reflexivity.
Qed.

(** X9: whatever control is clicked, in whatever state, a [stake] call is
    issued only by the Stake button, with the two checked sequences, and
    these have the same length, which is not 0. *)
Theorem stake_only_with_paired_ids (ctl : Control) (props : Props)
    (st : State) (cs ss : list N) :
  In (Stake cs ss) (click ctl props st) ->
  ctl = StakeButton
  /\ cs = checkedCraniums st /\ ss = checkedStallions st
  /\ length cs = length ss /\ 0 < length cs.
Proof.
  unfold click.
  destruct (Interact props st) as [panel | ] eqn:Hr; [ | intros [] ].
  destruct (account props) as [acct | ]; [ | intros [] ].
  unfold Interact in Hr.
  destruct (is_Some' (library props) && truthy_string (Staking.account props));
    [ | discriminate ].
  injection Hr as <-. cbn [stakeDisabled].
  destruct ctl; cbn.
  - intros [H | []]. discriminate H.
  - intros [H | []]. discriminate H.
  - intros [H | [H | []]]; discriminate H.
  - destruct (stakeButtonDisabled _ _) eqn:Hd; [ intros [] | ].
    intros [[= <- <-] | []].
    unfold stakeButtonDisabled in Hd.
    apply orb_false_iff in Hd. destruct Hd as [Hd H0].
    apply orb_false_iff in Hd. destruct Hd as [Hne Hc0].
    apply negb_false_iff, Nat.eqb_eq in Hne.
    apply Nat.eqb_neq in Hc0. repeat split; try assumption. lia.
Qed.

Lemma stake_only_with_paired_ids_witness :
  In (Stake [40%N] [9%N]) (click StakeButton connectedProps pairedState)
  /\ length [40%N] = length [9%N].
Proof.
  assert (H : In (Stake [40%N] [9%N])
                (click StakeButton connectedProps pairedState))
    by (left; reflexivity).
  split; [ exact H | ].
  exact (proj1 (proj2 (proj2 (proj2
           (stake_only_with_paired_ids _ _ _ _ _ H))))).
Defined.

End PanelFacts.

Module SelectionFacts.
Import Staking Fetch Handlers.

Lemma In_uncheck (n m : N) (l : list N) :
  In m (uncheck n l) <-> In m l /\ m <> n.
Proof.
  unfold uncheck. rewrite filter_In, negb_true_iff, N.eqb_neq. reflexivity.
Qed.

Lemma NoDup_uncheck (n : N) (l : list N) :
  List.NoDup l -> List.NoDup (uncheck n l).
Proof. unfold uncheck. apply List.NoDup_filter. Qed.

Lemma length_uncheck_present (n : N) (l : list N) :
  List.NoDup l -> In n l -> S (length (uncheck n l)) = length l.
Proof.
  unfold uncheck. induction l as [ | x l IH]; cbn; [ intros _ [] | ].
  intros Hnd Hin. apply List.NoDup_cons_iff in Hnd. destruct Hnd as [Hx Hnd].
  destruct (N.eqb_spec x n) as [-> | Hne]; cbn.
  - f_equal. clear IH Hin. induction l as [ | y l IH]; cbn; [ reflexivity | ].
    apply List.NoDup_cons_iff in Hnd. destruct Hnd as [_ Hnd].
    destruct (N.eqb_spec y n) as [-> | Hy]; cbn.
    + exfalso. apply Hx. left. reflexivity.
    + f_equal. apply IH; [ | exact Hnd ]. intros H. apply Hx. right. exact H.
  - f_equal. apply IH; [ exact Hnd | ]. destruct Hin; [ contradiction | assumption ].
Qed.

(** X10: as long as the checked set has no duplicate and only boxes of
    tokens that are not in it get checked, the set stays without
    duplicate and behaves as a set: a check adds the token and one to the
    length, an uncheck removes the token, and one from the length when
    the token was there. *)
Theorem toggling_keeps_set_without_duplicates (target_checked : bool)
    (n : N) (l : list N) :
  List.NoDup l ->
  (target_checked = true -> ~ In n l) ->
  List.NoDup (onChange target_checked n l)
  /\ (forall m, In m (onChange target_checked n l)
                <-> if target_checked then m = n \/ In m l
                    else In m l /\ m <> n)
  /\ length (onChange target_checked n l)
     = if target_checked then S (length l)
       else if in_dec N.eq_dec n l then length l - 1 else length l.
Proof.
  intros Hnd Hfresh. destruct target_checked; cbn [onChange].
  - split; [ | split ].
    + constructor; [ apply Hfresh; reflexivity | exact Hnd ].
    + intros m. cbn. split; intros [H | H]; auto.
    + reflexivity.
  - split; [ apply NoDup_uncheck, Hnd | split ].
    + intros m. apply In_uncheck.
    + destruct (in_dec N.eq_dec n l) as [Hin | Hout].
      * rewrite <- (length_uncheck_present n l Hnd Hin). lia.
      * f_equal. apply StakingFacts.uncheck_id_iff. exact Hout.
Qed.

(** X11: boxes checked one after the other are listed most recent first:
    the checked set is the reverse of the order of checking, put in front
    of what was checked before. *)
Theorem checks_are_listed_most_recent_first (ns l : list N) :
  changes (map (fun n => (true, n)) ns) l = rev ns ++ l.
Proof.
  unfold changes. revert l. induction ns as [ | n ns IH]; intros l; cbn.
  - reflexivity.
  - rewrite IH. unfold check. rewrite <- app_assoc. reflexivity.
Qed.

(** X12: unchecking is idempotent and two unchecks commute; an uncheck
    right after the check of the same token undoes no more than an uncheck
    alone. *)
Theorem unchecks_commute (n m : N) (l : list N) :
  onChange false n (onChange false n l) = onChange false n l
  /\ onChange false n (onChange false m l)
     = onChange false m (onChange false n l)
  /\ onChange false n (onChange true n l) = onChange false n l.
Proof.
  cbn [onChange]. unfold uncheck, check. split; [ | split ].
  - induction l as [ | x l IH]; cbn; [ reflexivity | ].
    destruct (N.eqb x n) eqn:E; cbn; rewrite ?E; cbn; rewrite IH; reflexivity.
  - induction l as [ | x l IH]; cbn; [ reflexivity | ].
    destruct (N.eqb x n) eqn:En, (N.eqb x m) eqn:Em; cbn;
      rewrite ?En, ?Em; cbn; rewrite IH; reflexivity.
  - cbn. rewrite N.eqb_refl. reflexivity.
Qed.

Lemma map_boxToken_imap (f : nat -> N -> Checkbox) (l : list N) :
  (forall i n, boxToken (f i n) = n) -> map boxToken (imap f l) = l.
Proof.
  revert f. induction l as [ | x l IH]; intros f Hf; cbn; [ reflexivity | ].
  rewrite Hf. f_equal. apply IH. intros i n. apply Hf.
Qed.

(** X13: the panel shows one checkbox for each owned id, in the order of
    the sequence, numbered from 0 (so two boxes differ even when their
    tokens are the same), and the heading of a collection exactly when it
    has a checkbox. *)
Theorem one_checkbox_per_owned_id (props : Props) (st : State)
    (panel : Panel) :
  Interact props st = Some panel ->
  map boxToken (craniumBoxes panel) = craniumBalance st
  /\ map boxIndex (craniumBoxes panel) = seq 0 (length (craniumBalance st))
  /\ map boxToken (stallionBoxes panel) = stallionBalance st
  /\ map boxIndex (stallionBoxes panel) = seq 0 (length (stallionBalance st))
  /\ (craniumHeading panel = true <-> craniumBoxes panel <> [])
  /\ (stallionHeading panel = true <-> stallionBoxes panel <> []).
Proof.
  unfold Interact.
  destruct (is_Some' (library props) && truthy_string (account props));
    [ | discriminate ].
  intros [= <-]. cbn.
  assert (Htok : forall c l, map boxToken (checkboxes c l) = l).
  { intros c l. unfold checkboxes. apply map_boxToken_imap. reflexivity. }
  assert (Hidx : forall c l, map boxIndex (checkboxes c l) = seq 0 (length l)).
  { intros c l. unfold checkboxes.
    change (map boxIndex) with (fmap (M := list) boxIndex).
    rewrite fmap_imap. unfold compose. cbn.
    rewrite (imap_seq_0 l (fun i => i)). apply list_fmap_id. }
  assert (Hhead : forall c l,
            (0 <? length l)%nat = true <-> checkboxes c l <> []).
  { intros c l. rewrite Nat.ltb_lt. destruct l; cbn; split;
      try lia; try congruence. }
  do 4 (split; [ first [ apply Htok | apply Hidx ] | ]).
  split; apply Hhead.
Qed.

Lemma toggling_keeps_set_without_duplicates_witness :
  List.NoDup (onChange true 7 [5%N; 3%N])
  /\ length (onChange true 7 [5%N; 3%N]) = 3.
Proof.
  destruct (toggling_keeps_set_without_duplicates true 7 [5%N; 3%N])
    as (Hnd & _ & Hlen).
  - repeat constructor; cbn; intros H; intuition discriminate.
  - intros _ H. cbn in H. intuition discriminate.
  - split; [ exact Hnd | exact Hlen ].
Defined.

Lemma one_checkbox_per_owned_id_witness :
  exists panel,
    Interact connectedProps pairedState = Some panel
    /\ map boxToken (craniumBoxes panel) = [30%N; 40%N]
    /\ map boxIndex (craniumBoxes panel) = [0; 1].
Proof.
  eexists. split; [ reflexivity | ].
  destruct (one_checkbox_per_owned_id connectedProps pairedState _ eq_refl)
    as (Ht & Hi & _).
  split; [ exact Ht | exact Hi ].
Defined.

End SelectionFacts.

(** ** The display components *)

Module DisplayFacts.
Import Display.

Lemma append_cons (a : Ascii.ascii) (p q : string) :
  String a p +:+ q = String a (p +:+ q).
Proof. reflexivity. Qed.

Lemma append_nil (q : string) : "" +:+ q = q.
Proof. reflexivity. Qed.

Lemma length_append (p q : string) :
  String.length (p +:+ q) = String.length p + String.length q.
Proof.
  induction p as [ | a p IH]; [ reflexivity | ].
  rewrite append_cons. cbn. f_equal. exact IH.
Qed.

Lemma append_assoc (p m q : string) : p +:+ m +:+ q = (p +:+ m) +:+ q.
Proof.
  induction p as [ | a p IH]; [ reflexivity | ].
  rewrite !append_cons. f_equal. exact IH.
Qed.

Lemma substring_all (s : string) : String.substring 0 (String.length s) s = s.
Proof.
  induction s as [ | a s IH]; cbn; [ reflexivity | f_equal; exact IH ].
Qed.

Lemma substring_prefix (p r : string) :
  String.substring 0 (String.length p) (p +:+ r) = p.
Proof.
  induction p as [ | a p IH].
  - rewrite append_nil. destruct r; reflexivity.
  - rewrite append_cons. cbn. f_equal. exact IH.
Qed.

Lemma substring_suffix (p q : string) (m : nat) :
  String.substring (String.length p) m (p +:+ q) = String.substring 0 m q.
Proof.
  induction p as [ | a p IH]; [ reflexivity | ].
  rewrite append_cons. cbn. exact IH.
Qed.

Lemma clampIndex_inside (len : nat) (i : nat) :
  i <= len -> clampIndex len (Z.of_nat i) = i.
Proof. intros H. unfold clampIndex. lia. Qed.

Lemma clampIndex_below (len : nat) (i : Z) :
  (i <= 0)%Z -> clampIndex len i = 0.
Proof. intros H. unfold clampIndex. lia. Qed.

Lemma clampIndex_above (len : nat) (i : Z) :
  (Z.of_nat len <= i)%Z -> clampIndex len i = len.
Proof. intros H. unfold clampIndex. lia. Qed.

(** X14: an account of ten characters or more is shown as its first six
    characters, three dots and its last four. *)
Theorem account_shown_abbreviated (p m q : string) :
  String.length p = 6 -> String.length q = 4 ->
  accountText (JsValue (p +:+ m +:+ q)) = p +:+ "..." +:+ q.
Proof.
  intros Hp Hq. unfold accountText.
  set (a := p +:+ m +:+ q).
  assert (Hlen : String.length a = 6 + String.length m + 4).
  { subst a. rewrite !length_append, Hp, Hq. lia. }
  destruct (String.eqb_spec a "") as [He | _].
  { rewrite He in Hlen. cbn in Hlen. lia. }
  unfold js_substring_from, js_substring.
  change 0%Z with (Z.of_nat 0). change 6%Z with (Z.of_nat 6).
  rewrite !clampIndex_inside by lia.
  replace (Z.of_nat (String.length a) - 4)%Z
    with (Z.of_nat (String.length a - 4)) by lia.
  rewrite !clampIndex_inside by lia.
  rewrite Nat.min_l, Nat.max_r by lia.
  rewrite Nat.min_l, Nat.max_r by lia.
  f_equal; [ | f_equal ].
  - subst a. rewrite Nat.sub_0_r, <- Hp. apply substring_prefix.
  - replace (String.length a - (String.length a - 4)) with 4 by lia.
    replace (String.length a - 4) with (String.length (p +:+ m))
      by (rewrite length_append; lia).
    subst a.
    rewrite append_assoc, substring_suffix, <- Hq. apply substring_all.
Qed.

(** X15: an account of at most four characters is shown twice, with the
    three dots in between: both [substring] calls return it whole. *)
Theorem short_account_shown_twice (a : string) :
  a <> "" -> String.length a <= 4 ->
  accountText (JsValue a) = a +:+ "..." +:+ a.
Proof.
  intros Hne Hlen. unfold accountText.
  destruct (String.eqb_spec a "") as [He | _]; [ contradiction | ].
  unfold js_substring_from, js_substring.
  rewrite (clampIndex_below _ 0) by lia.
  rewrite (clampIndex_above _ 6) by lia.
  rewrite (clampIndex_below _ (Z.of_nat (String.length a) - 4)) by lia.
  rewrite clampIndex_above by lia.
  rewrite Nat.min_l, Nat.max_r, Nat.sub_0_r by lia.
  rewrite substring_all. reflexivity.
Qed.

(** *** The block number *)

Lemma Coherent_firstRender : Coherent firstRender.
Proof.
  split; cbn; try discriminate; reflexivity.
Qed.

Lemma Coherent_runCleanup (s : BlockNumberState) :
  Coherent s ->
  Coherent (runCleanup s)
  /\ cleanup (runCleanup s) = None
  /\ unmounted (runCleanup s) = unmounted s
  /\ forall k r, effectRuns (runCleanup s) !! k = Some r ->
                 stale r = true /\ listening r = false.
Proof.
  intros Hs. pose proof Hs as [Hruns Hrunning Hblank Hun]. unfold runCleanup.
  destruct (cleanup s) as [k0 | ] eqn:Hc.
  - assert (Hall : forall k r,
              <[k0 := {| stale := true; listening := false |}]> (effectRuns s)
                !! k = Some r ->
              stale r = true /\ listening r = false).
    { intros k r Hk. destruct (decide (k0 = k)) as [<- | Hne].
      - rewrite list_lookup_insert_eq in Hk by (apply Hrunning; reflexivity).
        injection Hk as <-. split; reflexivity.
      - rewrite list_lookup_insert_ne in Hk by exact Hne.
        specialize (Hruns k r Hk).
        rewrite decide_False in Hruns by congruence. exact Hruns. }
    split; [ | split; [ reflexivity | split; [ reflexivity | exact Hall ] ] ].
    split; cbn.
    + intros k r Hk. apply (Hall k r Hk).
    + discriminate.
    + reflexivity.
    + reflexivity.
  - split; [ exact Hs | ].
    split; [ exact Hc | ]. split; [ reflexivity | ].
    intros k r Hk. specialize (Hruns k r Hk).
    rewrite decide_False in Hruns by congruence. exact Hruns.
Qed.

Lemma Coherent_setBlockNumber (v : Nullable N) (s : BlockNumberState) :
  Coherent s -> cleanup s <> None -> Coherent (setBlockNumber v s).
Proof.
  intros [Hruns Hrunning Hblank Hun] Hc. split; cbn; try assumption.
  intros Hnone. contradiction.
Qed.

Lemma Coherent_step (s : BlockNumberState) (e : BlockNumberEvent) :
  Coherent s -> Coherent (blockNumberStep s e).
Proof.
  intros Hs. destruct e as [library | | k n | k | k n]; cbn [blockNumberStep].
  - destruct (unmounted s) eqn:Hu; [ exact Hs | ].
    destruct (Coherent_runCleanup s Hs) as ([_ _ Hblank _] & Hc & Hu' & Hall).
    unfold runEffect. destruct library; split; cbn.
    + intros k r Hk. destruct (decide (k = length (effectRuns (runCleanup s))))
        as [-> | Hne].
      * rewrite decide_True by reflexivity.
        rewrite lookup_app_r, Nat.sub_diag in Hk by lia.
        injection Hk as <-. split; reflexivity.
      * rewrite decide_False by congruence.
        apply lookup_lt_Some in Hk as Hlt.
        rewrite length_app in Hlt. cbn in Hlt.
        rewrite lookup_app_l in Hk by lia. apply (Hall k r Hk).
    + intros k [= <-]. rewrite length_app. cbn. lia.
    + discriminate.
    + rewrite Hu', Hu. discriminate.
    + intros k r Hk. apply (Hall k r Hk).
    + discriminate.
    + intros _. apply Hblank, Hc.
    + reflexivity.
  - destruct (unmounted s) eqn:Hu; [ exact Hs | ].
    destruct (Coherent_runCleanup s Hs) as ([_ _ Hblank _] & Hc & Hu' & Hall).
    split; cbn.
    + intros k r Hk. rewrite Hc. apply (Hall k r Hk).
    + rewrite Hc. discriminate.
    + intros _. apply Hblank, Hc.
    + intros _. exact Hc.
  - destruct (effectRuns s !! k) as [r | ] eqn:Hk; [ | exact Hs ].
    destruct (stale r) eqn:Hst; [ exact Hs | ].
    apply Coherent_setBlockNumber; [ exact Hs | ].
    intros Hnone. destruct Hs as [Hruns _ _ _]. specialize (Hruns k r Hk).
    rewrite decide_False in Hruns by congruence.
    destruct Hruns. congruence.
  - destruct (effectRuns s !! k) as [r | ] eqn:Hk; [ | exact Hs ].
    destruct (stale r) eqn:Hst; [ exact Hs | ].
    apply Coherent_setBlockNumber; [ exact Hs | ].
    intros Hnone. destruct Hs as [Hruns _ _ _]. specialize (Hruns k r Hk).
    rewrite decide_False in Hruns by congruence.
    destruct Hruns. congruence.
  - destruct (effectRuns s !! k) as [r | ] eqn:Hk; [ | exact Hs ].
    destruct (listening r) eqn:Hli; [ | exact Hs ].
    apply Coherent_setBlockNumber; [ exact Hs | ].
    intros Hnone. destruct Hs as [Hruns _ _ _]. specialize (Hruns k r Hk).
    rewrite decide_False in Hruns by congruence.
    destruct Hruns. congruence.
Qed.

Lemma Coherent_fold (events : list BlockNumberEvent) (s : BlockNumberState) :
  Coherent s -> Coherent (fold_left blockNumberStep events s).
Proof.
  revert s. induction events as [ | e events IH]; intros s Hs; cbn.
  - exact Hs.
  - apply IH, Coherent_step, Hs.
Qed.

Lemma Coherent_run (events : list BlockNumberEvent) :
  Coherent (blockNumberRun events).
Proof. apply Coherent_fold, Coherent_firstRender. Qed.

Lemma blockNumberRun_app (events later : list BlockNumberEvent) :
  blockNumberRun (events ++ later)
  = fold_left blockNumberStep later (blockNumberRun events).
Proof. apply fold_left_app. Qed.

(** An event of a run that is not the running one changes nothing. *)
Lemma staleEvent_dropped (s : BlockNumberState) (e : BlockNumberEvent) :
  Coherent s -> staleEvent s e -> blockNumberStep s e = s.
Proof.
  intros [Hruns _ _ _] He.
  destruct e as [library | | k n | k | k n]; cbn in He; try contradiction;
    cbn [blockNumberStep];
    destruct (effectRuns s !! k) as [r | ] eqn:Hk; try reflexivity;
    specialize (Hruns k r Hk); rewrite decide_False in Hruns by exact He;
    destruct Hruns as [Hst Hli]; rewrite ?Hst, ?Hli; reflexivity.
Qed.

Lemma staleEvents_dropped (later : list BlockNumberEvent)
    (s : BlockNumberState) :
  Coherent s -> Forall (staleEvent s) later ->
  fold_left blockNumberStep later s = s.
Proof.
  intros Hs. induction 1 as [ | e later He _ IH]; cbn; [ reflexivity | ].
  rewrite (staleEvent_dropped s e Hs He). exact IH.
Qed.

Lemma unmounted_stays (later : list BlockNumberEvent) (s : BlockNumberState) :
  unmounted s = true ->
  unmounted (fold_left blockNumberStep later s) = true.
Proof.
  revert s. induction later as [ | e later IH]; intros s Hu;
    cbn [fold_left]; [ exact Hu | ].
  apply IH. destruct e as [library | | k n | k | k n]; cbn [blockNumberStep].
  - rewrite Hu. exact Hu.
  - rewrite Hu. exact Hu.
  - destruct (effectRuns s !! k) as [r | ]; [ | exact Hu ].
    destruct (stale r); exact Hu.
  - destruct (effectRuns s !! k) as [r | ]; [ | exact Hu ].
    destruct (stale r); exact Hu.
  - destruct (effectRuns s !! k) as [r | ]; [ | exact Hu ].
    destruct (listening r); exact Hu.
Qed.

Lemma unmounted_Unmount (s : BlockNumberState) :
  unmounted (blockNumberStep s Unmount) = true.
Proof. cbn. destruct (unmounted s) eqn:Hu; [ exact Hu | reflexivity ]. Qed.

Lemma blank_after_Effect (s : BlockNumberState) (library : bool) :
  Coherent s -> blockNumber (blockNumberStep s (Effect library)) = JsUndefined.
Proof.
  intros Hs. cbn [blockNumberStep].
  destruct (unmounted s) eqn:Hu.
  - destruct Hs as [_ _ Hblank Hun]. auto.
  - destruct (Coherent_runCleanup s Hs) as ([_ _ Hblank _] & Hc & _).
    unfold runEffect. destruct library; cbn; auto.
Qed.

(** X16: the events of a run of the effect of [BlockNumber] that has been
    cleaned up are dropped.  An event of a run that is not the running one
    changes nothing; once the component is unmounted the number shown is
    blank and stays blank, whatever comes; when the effect runs again (on
    another library or chain) the number shown is blank, and stays so
    under the events of the runs before; the events of the running effect
    set what is shown: the block number they carry, or Error after a
    rejected query. *)
Theorem block_number_dropped_after_cleanup (events : list BlockNumberEvent) :
  (forall e,
     staleEvent (blockNumberRun events) e ->
     blockNumberStep (blockNumberRun events) e = blockNumberRun events)
  /\ (forall later,
        blockNumberText
          (blockNumber (blockNumberRun (events ++ Unmount :: later)))
        = TextBlank)
  /\ (forall library later,
        Forall (staleEvent (blockNumberRun (events ++ [Effect library])))
               later ->
        blockNumberText
          (blockNumber (blockNumberRun (events ++ Effect library :: later)))
        = TextBlank)
  /\ (forall k n,
        cleanup (blockNumberRun events) = Some k ->
        blockNumberText
          (blockNumber
             (blockNumberRun (events ++ [GetBlockNumberResolved k n])))
        = TextNumber n
        /\ blockNumberText
             (blockNumber (blockNumberRun (events ++ [Block k n])))
           = TextNumber n
        /\ blockNumberText
             (blockNumber
                (blockNumberRun (events ++ [GetBlockNumberRejected k])))
           = TextError).
Proof.
  pose proof (Coherent_run events) as Hs.
  split; [ | split; [ | split ] ].
  - intros e He. apply staleEvent_dropped; assumption.
  - intros later. rewrite blockNumberRun_app. cbn [fold_left].
    pose proof (unmounted_stays later _
                  (unmounted_Unmount (blockNumberRun events))) as Hu.
    pose proof (Coherent_fold later _
                  (Coherent_step _ Unmount Hs)) as [_ _ Hblank Hun].
    rewrite (Hblank (Hun Hu)). reflexivity.
  - intros library later Hlater.
    replace (events ++ Effect library :: later)
      with ((events ++ [Effect library]) ++ later)
      by (rewrite <- app_assoc; reflexivity).
    rewrite blockNumberRun_app.
    rewrite (staleEvents_dropped later _ (Coherent_run _) Hlater).
    rewrite blockNumberRun_app. cbn [fold_left].
    rewrite (blank_after_Effect _ library Hs). reflexivity.
  - intros k n Hk. rewrite !blockNumberRun_app. cbn [fold_left blockNumberStep].
    destruct Hs as [Hruns Hrunning _ _].
    destruct (lookup_lt_is_Some_2 _ _ (Hrunning k Hk)) as [r Hr].
    specialize (Hruns k r Hr). rewrite decide_True in Hruns by exact Hk.
    destruct Hruns as [Hst Hli]. rewrite Hr, Hst, Hli.
    repeat split.
Qed.

(** A change of chain: the first run of the effect has shown block 5; the
    effect runs again; a block of the first provider is dropped, the
    query of the second run sets the number. *)
Lemma block_number_after_chain_change :
  blockNumberText (blockNumber (blockNumberRun [Effect true;
                                                GetBlockNumberResolved 0 5%N]))
  = TextNumber 5
  /\ blockNumberText (blockNumber (blockNumberRun [Effect true;
                                                    GetBlockNumberResolved 0 5%N;
                                                    Effect true;
                                                    Block 0 6%N]))
     = TextBlank
  /\ blockNumberText (blockNumber (blockNumberRun chainChanged))
     = TextNumber 7.
Proof. repeat split. Qed.

Lemma account_shown_abbreviated_witness :
  accountText (JsValue "0x12345678abcdef01") = "0x1234...ef01".
Proof.
  apply (account_shown_abbreviated "0x1234" "5678abcd" "ef01");
    reflexivity.
Defined.

Lemma short_account_shown_twice_witness :
  accountText (JsValue "0x1") = "0x1...0x1".
Proof.
  apply (short_account_shown_twice "0x1"); [ discriminate | cbn; lia ].
Defined.

End DisplayFacts.

(** ** More of Fetch *)

Module FetchMore.
Import Staking Fetch FetchFacts.

Section WithEngine.
Variable engine : Engine.

(** X17: one click on Fetch raises at most one alert and calls each setter
    at most once; and it does one or the other: when it has alerted, no
    setter has been called and the panel state is the one before the
    click. *)
Theorem fetch_alerts_once_or_sets (account : string) (st0 : State)
    (acts : list Action) (s : FetchState) :
  run engine acts (clickFetch account st0) = Some s ->
  length (alerts (trace s)) <= 1
  /\ (forall c, length (setterCalls c (trace s)) <= 1)
  /\ (alerts (trace s) <> [] ->
      ui s = st0 /\ forall c, setterCalls c (trace s) = []).
Proof.
  intros Hrun. destruct (Inv_reachable _ _ _ _ _ Hrun) as [_ _ _ Hch].
  destruct (chain s).
  - destruct Hch as (_ & Hui & Hal & Hset & _). rewrite Hal.
    split; [ cbn; lia | ]. split; [ | congruence ].
    intros c. rewrite Hset. cbn. lia.
  - destruct Hch as (Hal & cb & sb & _ & _ & _ & Hset). rewrite Hal.
    split; [ cbn; lia | ]. split; [ | congruence ].
    intros c. specialize (Hset c).
    destruct (allFulfilled _); destruct Hset as [_ ->]; cbn; lia.
  - destruct Hch as (Hui & Hal & Hset & _). rewrite Hal.
    split; [ lia | ]. split; [ | auto ].
    intros c. rewrite Hset. cbn. lia.
Qed.

(** X18: Fetch never touches the checked sets, whatever the provider
    answers (so ids checked before a new Fetch stay checked even if they
    are no longer owned), and the owned ids of a collection are the ones
    before the click until its setter is called, then the ones the setter
    was called with. *)
Theorem fetch_leaves_checked_sets (account : string) (st0 : State)
    (acts : list Action) (s : FetchState) (c : Collection) :
  run engine acts (clickFetch account st0) = Some s ->
  checked c (ui s) = checked c st0
  /\ (setterCalls c (trace s) = [] -> owned c (ui s) = owned c st0)
  /\ (forall ids, setterCalls c (trace s) = [ids] -> owned c (ui s) = ids).
Proof.
  intros Hrun. destruct (Inv_reachable _ _ _ _ _ Hrun) as [_ Hchk _ Hch].
  split; [ apply Hchk | ].
  destruct (chain s).
  - destruct Hch as (_ & -> & _ & Hset & _). rewrite Hset.
    split; [ reflexivity | discriminate ].
  - destruct Hch as (_ & cb & sb & _ & _ & _ & Hset). specialize (Hset c).
    destruct (allFulfilled _); destruct Hset as [Ho ->].
    + split; [ discriminate | intros ids [= <-]; exact Ho ].
    + split; [ intros _; exact Ho | discriminate ].
  - destruct Hch as (-> & _ & Hset & _). rewrite Hset.
    split; [ reflexivity | discriminate ].
Qed.

(** X21: when both balance queries are fulfilled and one of the balances
    is 2^32 or more, Fetch ends in the alert, however the run goes on:
    exactly one alert, no setter call, the panel state of before. *)
Theorem fetch_invalid_length_alerts (account : string) (st0 : State)
    (acts : list Action) (s : FetchState) (cb sb : N) :
  run engine acts (clickFetch account st0) = Some s ->
  balances s = both (Some (Fulfilled cb)) (Some (Fulfilled sb)) ->
  (2 ^ 32 <= cb)%N \/ (2 ^ 32 <= sb)%N ->
  length (alerts (trace s)) = 1
  /\ ui s = st0
  /\ (forall c, setterCalls c (trace s) = []).
Proof.
  intros Hrun Hb Hbig.
  assert (Hnone : lookupCount engine cb = None
                  \/ lookupCount engine sb = None).
  { destruct Hbig as [H | H]; [ left | right ];
      apply lookupCount_too_long, H. }
  destruct (nothing_set_when_callback_throws engine account st0 acts s cb sb
              Hrun Hb Hnone) as (Hal & Hui & Hset & _).
  auto.
Qed.

Lemma map_Number_exact (vs : list N) :
  Forall (fun v => (v < 2 ^ 53)%N) vs -> map Number vs = vs.
Proof.
  induction 1 as [ | v vs Hv _ IH]; cbn; [ reflexivity | ].
  rewrite (Number_exact v Hv), IH. reflexivity.
Qed.

(** X22: when both balances are usable (below 2^32, and no more than the
    engine's [apply] takes as arguments) and the ids the lookups of a
    collection resolve to are all below 2^53, the owned-id sequence is
    exactly these ids, in index order: the conversion to numbers changes
    none of them. *)
Theorem fetch_owned_ids_exact (account : string) (st0 : State)
    (acts : list Action) (s : FetchState) (cb sb : N) (c : Collection)
    (vs : list N) :
  run engine acts (clickFetch account st0) = Some s ->
  balances s = both (Some (Fulfilled cb)) (Some (Fulfilled sb)) ->
  usableBalance engine cb -> usableBalance engine sb ->
  pick c (lookups s) = fulfilled vs ->
  Forall (fun v => (v < 2 ^ 53)%N) vs ->
  owned c (ui s) = vs /\ setterCalls c (trace s) = [vs].
Proof.
  intros Hrun Hb Hcb Hsb Hl Hvs.
  destruct (set_when_own_lookups_fulfilled engine account st0 acts s cb sb
              Hcb Hsb Hrun Hb c) as (_ & _ & Hset).
  rewrite Hl in Hset. unfold fulfilled in Hset.
  rewrite allFulfilled_values, (map_Number_exact vs Hvs) in Hset.
  exact Hset.
Qed.

(** X23: when both balance queries are fulfilled and one of the balances
    is more than the engine's [apply] takes as arguments, Fetch ends in
    the alert, however the run goes on: exactly one alert, no setter
    call, the panel state of before.  No Stallion lookup is issued; when
    it is the Cranium balance that is too large, no Cranium lookup
    either; when the Cranium balance is usable, the Cranium lookups are
    issued all the same. *)
Theorem fetch_too_many_lookups_alerts (account : string) (st0 : State)
    (acts : list Action) (s : FetchState) (cb sb : N) :
  run engine acts (clickFetch account st0) = Some s ->
  balances s = both (Some (Fulfilled cb)) (Some (Fulfilled sb)) ->
  maxArguments engine < N.to_nat cb \/ maxArguments engine < N.to_nat sb ->
  length (alerts (trace s)) = 1
  /\ ui s = st0
  /\ (forall c, setterCalls c (trace s) = [])
  /\ lookupCalls Stallion (trace s) = []
  /\ (maxArguments engine < N.to_nat cb -> lookupCalls Cranium (trace s) = [])
  /\ (usableBalance engine cb ->
      lookupCalls Cranium (trace s)
      = TokenOfOwnerByIndex Cranium account <$> seq 0 (N.to_nat cb)).
Proof.
  intros Hrun Hb Hbig.
  assert (Hnone : lookupCount engine cb = None
                  \/ lookupCount engine sb = None).
  { destruct Hbig as [H | H]; [ left | right ];
      apply lookupCount_too_many, H. }
  destruct (nothing_set_when_callback_throws engine account st0 acts s cb sb
              Hrun Hb Hnone) as (Hal & Hui & Hset & _).
  destruct (lookupCalls_when_callback_throws engine account st0 acts s cb sb
              Hrun Hb Hnone) as (HlS & HlC0 & HlC).
  do 4 (split; [ assumption | ]).
  split; [ | exact HlC ].
  intros Hcb. apply HlC0, lookupCount_too_many, Hcb.
Qed.

End WithEngine.

Lemma fetch_alerts_once_or_sets_witness :
  exists s,
    run sampleEngine rejectedBalanceRun (clickFetch "0x00a1" pairedState)
    = Some s
    /\ length (alerts (trace s)) <= 1.
Proof.
  eexists. split; [ vm_compute; reflexivity | ].
  match goal with |- length (alerts (trace ?s)) <= 1 =>
    assert (Hrun : run sampleEngine rejectedBalanceRun
                     (clickFetch "0x00a1" pairedState)
                   = Some s) by (vm_compute; reflexivity);
    exact (proj1 (fetch_alerts_once_or_sets _ _ _ _ s Hrun)) end.
Defined.

Lemma fetch_leaves_checked_sets_witness :
  exists s,
    run sampleEngine completeRun (clickFetch "0x00a1" pairedState) = Some s
    /\ checked Cranium (ui s) = [40%N].
Proof.
  eexists. split; [ vm_compute; reflexivity | ].
  match goal with |- checked _ (ui ?s) = _ =>
    assert (Hrun : run sampleEngine completeRun
                     (clickFetch "0x00a1" pairedState)
                   = Some s) by (vm_compute; reflexivity);
    exact (proj1 (fetch_leaves_checked_sets _ _ _ _ s Cranium Hrun)) end.
Defined.

Lemma fetch_balance_rejection_alerts_witness :
  exists s,
    run sampleEngine rejectedBalanceRun (clickFetch "0x00a1" pairedState)
    = Some s
    /\ length (alerts (trace s)) = 1
    /\ ui s = pairedState.
Proof.
  eexists. split; [ vm_compute; reflexivity | ].
  match goal with |- length (alerts (trace ?s)) = 1 /\ _ =>
    assert (Hrun : run sampleEngine rejectedBalanceRun
                     (clickFetch "0x00a1" pairedState)
                   = Some s) by (vm_compute; reflexivity);
    destruct (fetch_balance_rejection_alerts _ _ _ _ s Stallion
                (Some "network error") Hrun eq_refl) as (Ha & Hu & _) end.
  split; [ exact Ha | exact Hu ].
Defined.

Lemma fetch_failed_collection_not_set_witness :
  exists s,
    run sampleEngine rejectedLookupRun (clickFetch "0x00a1" pairedState)
    = Some s
    /\ setterCalls Cranium (trace s) = []
    /\ owned Cranium (ui s) = [30%N; 40%N].
Proof.
  eexists. split; [ vm_compute; reflexivity | ].
  match goal with |- setterCalls _ (trace ?s) = _ /\ _ =>
    assert (Hrun : run sampleEngine rejectedLookupRun
                     (clickFetch "0x00a1" pairedState)
                   = Some s) by (vm_compute; reflexivity);
    exact (fetch_failed_collection_not_set _ _ _ _ s Cranium 1 None Hrun
             eq_refl) end.
Defined.

Lemma fetch_invalid_length_alerts_witness :
  exists s,
    run sampleEngine (fulfilBalances 1 (2 ^ 32))
        (clickFetch "0x00a1" pairedState) = Some s
    /\ length (alerts (trace s)) = 1
    /\ ui s = pairedState.
Proof.
  eexists. split; [ vm_compute; reflexivity | ].
  match goal with |- length (alerts (trace ?s)) = 1 /\ _ =>
    assert (Hrun : run sampleEngine (fulfilBalances 1 (2 ^ 32))
                     (clickFetch "0x00a1" pairedState)
                   = Some s) by (vm_compute; reflexivity);
    destruct (fetch_invalid_length_alerts _ _ _ _ s 1%N (2 ^ 32)%N Hrun
                eq_refl (or_intror (N.le_refl _))) as (Ha & Hu & _) end.
  split; [ exact Ha | exact Hu ].
Defined.

Lemma fetch_owned_ids_exact_witness :
  exists s,
    run sampleEngine completeRun (clickFetch "0x00a1" pairedState) = Some s
    /\ owned Cranium (ui s) = [30%N; 40%N]
    /\ setterCalls Cranium (trace s) = [[30%N; 40%N]].
Proof.
  eexists. split; [ vm_compute; reflexivity | ].
  match goal with |- owned _ (ui ?s) = _ /\ _ =>
    assert (Hrun : run sampleEngine completeRun
                     (clickFetch "0x00a1" pairedState)
                   = Some s) by (vm_compute; reflexivity);
    apply (fetch_owned_ids_exact _ _ _ _ s 2%N 1%N Cranium [30%N; 40%N] Hrun
             eq_refl (usableBalance_sample 2 eq_refl)
             (usableBalance_sample 1 eq_refl) eq_refl) end.
  repeat constructor.
Defined.

Lemma fetch_too_many_lookups_alerts_witness :
  exists s,
    run sampleEngine (fulfilBalances 1 200000 ++ fulfilFrom Cranium 0 [30%N])
        (clickFetch "0x00a1" pairedState) = Some s
    /\ length (alerts (trace s)) = 1
    /\ ui s = pairedState
    /\ setterCalls Cranium (trace s) = []
    /\ lookupCalls Cranium (trace s)
       = [TokenOfOwnerByIndex Cranium "0x00a1" 0].
Proof.
  eexists. split; [ vm_compute; reflexivity | ].
  match goal with |- length (alerts (trace ?s)) = 1 /\ _ =>
    assert (Hrun : run sampleEngine
                     (fulfilBalances 1 200000 ++ fulfilFrom Cranium 0 [30%N])
                     (clickFetch "0x00a1" pairedState)
                   = Some s) by (vm_compute; reflexivity);
    assert (Hmax : maxArguments sampleEngine < N.to_nat 200000)
      by (apply Nat.ltb_lt; vm_compute; reflexivity);
    destruct (fetch_too_many_lookups_alerts _ _ _ _ s 1%N 200000%N Hrun
                eq_refl (or_intror Hmax)) as (Ha & Hu & Hs & _ & _ & Hl) end.
  split; [ exact Ha | ]. split; [ exact Hu | ]. split; [ apply Hs | ].
  exact (Hl (usableBalance_sample 1 eq_refl)).
Defined.

End FetchMore.
